(** * libsigrok, output/vcd.c: the Value Change Dump output module

    A shallow embedding of [src/output/vcd.c] and the properties of its
    name parser, probe registry, time-scale selection, timestamp
    computation and delta encoder.

    Conventions of the embedding:
    - C integers are [Z]; where the C type is unsigned and the code can
      reach its bound, the wrap-around is written out ([wrap]);
    - [char *] strings are [string]; byte buffers are [list byte];
    - a C operation whose behaviour the language leaves undefined (a read
      outside a buffer, a shift count as large as the width of [int], an
      out-of-range conversion of a floating-point value to an integer)
      makes the embedded function return [None] or [Fault];
    - the loop of [receive] is not bounded by the code for every input, so
      it is embedded with a fuel argument and the outcome [OutOfFuel]. *)

From Stdlib Require Import ZArith List String Ascii Bool Lia.
From Stdlib Require Import Strings.Byte DecimalString.
From Stdlib Require Import QArith Qpower Qround Lqa.
From Stdlib Require Import Sorting.Sorted Sorting.Permutation.
From Stdlib Require Import DecimalZ DecimalPos.
Import ListNotations.

#[local] Open Scope string_scope.
#[local] Open Scope list_scope.
#[local] Open Scope Z_scope.

(** ** Machine integers *)

Module Mach.

(** The value of an unsigned [w]-bit integer after an arithmetic
    operation whose mathematical result is [x]. *)
Definition wrap (w : Z) (x : Z) : Z := x mod 2 ^ w.

(** Conversion to a signed 32-bit [int] of a value that does not fit
    (two's complement, as every supported target does). *)
Definition to_int (x : Z) : Z :=
  let y := wrap 32 x in
  if y <? 2 ^ 31 then y else y - 2 ^ 32.

Definition uint8 (b : byte) : Z := Z.of_N (Byte.to_N b).

End Mach.
Import Mach.

(** ** BitAccessor: [get_bit] *)

(** [static int get_bit(uint8_t *bit_array, int idx)]:
    [return !!(bit_array[idx / 8] & (((uint8_t) 1) << idx));]

    The left operand of [<<] is promoted to [int], so the shift is
    defined for [0 <= idx < 31] only; the byte read is defined when
    [idx / 8] lies inside the buffer. *)
Definition get_bit (bit_array : list byte) (idx : Z) : option Z :=
  if (idx <? 0) || (31 <=? idx) then None
  else
    match nth_error bit_array (Z.to_nat (Z.quot idx 8)) with
    | None => None
    | Some b =>
        Some (if Z.land (uint8 b) (Z.shiftl 1 idx) =? 0 then 0 else 1)
    end.

(** The bit that the specification asks for: bit [idx mod 8] of byte
    [idx div 8] of the packed buffer. *)
Definition logic_bit (buffer : list byte) (idx : Z) : option Z :=
  match nth_error buffer (Z.to_nat (idx / 8)) with
  | None => None
  | Some b => Some (Z.b2z (Z.testbit (uint8 b) (idx mod 8)))
  end.

(** ** Text helpers *)

Definition LF : string := String "010"%char EmptyString.

Definition code (c : ascii) : Z := Z.of_N (N_of_ascii c).

(** A [char] computed by integer arithmetic keeps the low eight bits. *)
Definition char_of (x : Z) : ascii := ascii_of_N (Z.to_N (wrap 8 x)).

(** [%d], [%i] and [%llu] of [printf]. *)
Definition decimal (x : Z) : string := NilZero.string_of_int (Z.to_int x).

(** [%c] of [printf]. *)
Definition chr (c : ascii) : string := String c EmptyString.

(** [str[i]]; the terminating NUL is what lies past the last character. *)
Definition str_at (str : string) (i : Z) : ascii :=
  match String.get (Z.to_nat i) str with
  | Some c => c
  | None => zero
  end.

Definition strlen (str : string) : Z := Z.of_nat (String.length str).

Definition isdigit (c : ascii) : bool := (48 <=? code c) && (code c <=? 57).

(** ** NameParser: [get_array_str] *)

(** [while (end > 0 && isdigit(str[end])) end--;] *)
Fixpoint skip_digits (str : string) (e : nat) : nat :=
  match e with
  | O => O
  | S e' => if isdigit (str_at str (Z.of_nat e)) then skip_digits str e' else e
  end.

(** The digits that [strtoul(_, NULL, 10)] consumes, as a number. *)
Fixpoint digits_value (s : string) (acc : Z) : Z :=
  match s with
  | String c s' =>
      if isdigit c then digits_value s' (10 * acc + (code c - 48)) else acc
  | EmptyString => acc
  end.

(** [strtoul] saturates at [ULONG_MAX] (64-bit [unsigned long]). *)
Definition strtoul (s : string) : Z := Z.min (digits_value s 0) (2 ^ 64 - 1).

(** [static char *get_array_str(const char *str, int *idx)].
    [None] is the [NULL] return, which leaves [*idx] untouched;
    [Some (ret, idx)] is the duplicated name cut at the ['<'] together with
    the value stored through [idx].

    For the empty name the first test reads the byte in front of the
    string: whatever it holds, the function returns [NULL], there or at
    [end <= 0] ([end] is [-2] by then); [str_at] reads NUL for it. *)
Definition get_array_str (str : string) : option (string * Z) :=
  let end0 := strlen str - 1 in
  (* Ends in '>' *)
  if negb (Ascii.eqb (str_at str end0) ">"%char) then None
  else
    let end1 := end0 - 1 in
    (* Contains at least one digit before '>' *)
    if (end1 <=? 0) || negb (isdigit (str_at str end1)) then None
    else
      let end2 := Z.of_nat (skip_digits str (Z.to_nat end1)) in
      (* Has a '<' and at least one character before it *)
      if (end2 =? 0) || negb (Ascii.eqb (str_at str end2) "<"%char) then None
      else
        let idx :=
          to_int (strtoul (substring (Z.to_nat (end2 + 1))
                                     (String.length str) str)) in
        Some (substring 0 (Z.to_nat end2) str, idx).

(** ** ProbeRegistry *)

Record sr_probe := { enabled : bool; name : string }.

Record bit_index := { bit : Z; sample : Z }.

Record probe_context := {
  indices : list bit_index;
  symbol : ascii;
  ctx_name : string;
  is_vector : bool
}.

(** [probe_find]: the position in the array of the first vector probe of
    that name ([None] for [NULL]). *)
Fixpoint probe_find (indices : list probe_context) (name : string)
  : option nat :=
  match indices with
  | [] => None
  | ctx :: rest =>
      if is_vector ctx && String.eqb (ctx_name ctx) name then Some O
      else option_map S (probe_find rest name)
  end.

(** [sort_bits]: the comparison given to [g_array_sort]. *)
Definition sort_bits (a b : bit_index) : Z :=
  if bit a =? bit b then 0 else if bit a <? bit b then 1 else -1.

Section Sort.
Context {A : Type} (cmp : A -> A -> Z).

Fixpoint sort_insert (x : A) (l : list A) : list A :=
  match l with
  | [] => [x]
  | y :: l' => if cmp x y <=? 0 then x :: l else y :: sort_insert x l'
  end.

(** [g_array_sort] orders the array by [cmp]. glib leaves the order of
    entries that compare equal open; here they keep their order. *)
Definition g_array_sort (l : list A) : list A :=
  fold_right sort_insert [] l.
End Sort.

(** [g_array_append_val(probe_ctx->indices, bidx)] on the probe at
    position [k] of the registry. *)
Fixpoint append_index (probeindices : list probe_context) (k : nat)
    (bidx : bit_index) : list probe_context :=
  match probeindices, k with
  | [], _ => []
  | ctx :: rest, O =>
      {| indices := indices ctx ++ [bidx];
         symbol := symbol ctx;
         ctx_name := ctx_name ctx;
         is_vector := is_vector ctx |} :: rest
  | ctx :: rest, S k' => ctx :: append_index rest k' bidx
  end.

Definition len {A : Type} (l : list A) : Z := Z.of_nat (List.length l).

(** One turn of the loop of [init] over [o->sdi->probes]. The state is
    [ctx->probeindices] and [num_enabled_probes]. *)
Definition init_probe (st : list probe_context * Z) (probe : sr_probe)
  : list probe_context * Z :=
  let (probeindices, num_enabled_probes) := st in
  if negb (enabled probe) then st
  else
    let array_str := get_array_str (name probe) in
    let bidx :=
      {| bit := match array_str with Some (_, idx) => idx | None => 0 end;
         sample := len probeindices |} in
    let probe_ctx :=
      match array_str with
      | Some (base, _) => probe_find probeindices base
      | None => None
      end in
    match probe_ctx with
    | Some k => (append_index probeindices k bidx, num_enabled_probes + 1)
    | None =>
        (probeindices ++
           [ {| indices := [bidx];
                symbol := char_of (code "!"%char + (len probeindices + 1) - 1);
                ctx_name := match array_str with
                            | Some (base, _) => base
                            | None => name probe
                            end;
                is_vector := match array_str with
                             | Some _ => true
                             | None => false
                             end |} ],
         num_enabled_probes + 1)
    end.

Definition build_registry (probes : list sr_probe)
  : list probe_context * Z :=
  fold_left init_probe probes ([], 0).

(** ** Single-precision arithmetic

    [receive] computes the timestamp in [float]. A finite [float] is
    represented by the rational number it denotes, and every operation
    rounds its exact result to the nearest number with a 24-bit
    significand, ties to even (IEEE 754 binary32, default rounding mode,
    each operation evaluated in the type [float]). The operands that
    [receive] can supply (a 64-bit count, a 64-bit non-zero rate, an [int]
    period) keep every result between [2^-64] and [2^96] in magnitude, well
    inside the exponent range of binary32, so no exponent bound appears.
    Division by zero gives an infinity or a NaN; those are handled where
    they arise, in [timestamp]. *)

Module Float32.

#[local] Open Scope Q_scope.

Definition prec : Z := 24.

Definition two_pow (e : Z) : Q := (2 # 1) ^ e.

(** The exponent [e] with [2^e <= q < 2^(e+1)], for [q > 0]. *)
Definition ilog2 (q : Q) : Z :=
  let e0 := (Z.log2 (Qnum q) - Z.log2 (Zpos (Qden q)))%Z in
  if Qle_bool (two_pow e0) q then e0 else (e0 - 1)%Z.

(** The integer nearest to [x], the even one of the two when [x] lies
    half way. *)
Definition rne (x : Q) : Z :=
  let f := Qfloor x in
  match ((x - inject_Z f) ?= (1 # 2))%Q with
  | Lt => f
  | Gt => (f + 1)%Z
  | Eq => if Z.even f then f else (f + 1)%Z
  end.

(** Rounding of a positive number: scale the significand into
    [2^23, 2^24), round it to an integer, scale back. *)
Definition round_pos (q : Q) : Q :=
  let e := (ilog2 q - (prec - 1))%Z in
  inject_Z (rne (q / two_pow e)) * two_pow e.

Definition round (q : Q) : Q :=
  match q ?= 0 with
  | Eq => 0
  | Gt => round_pos q
  | Lt => - round_pos (- q)
  end.

(** Conversion of an integer to [float]. *)
Definition of_int (k : Z) : Q := round (inject_Z k).

Definition div (a b : Q) : Q := round (a / b).

Definition mul (a b : Q) : Q := round (a * b).

(** Conversion to an integer type discards the fractional part. *)
Definition trunc (q : Q) : Z :=
  if Qle_bool 0 q then Qfloor q else (- Qfloor (- q))%Z.

(** Half a unit in the last place of a significand in [1, 2): the
    largest relative error of one rounding. *)
Definition ulp_half : Q := 1 # 16777216.

(** The numbers with a 24-bit significand. *)
Definition representable (q : Q) : Prop :=
  exists m e : Z, (Z.abs m < 2 ^ prec)%Z /\ q == inject_Z m * two_pow e.

End Float32.

(** ** Time scale *)

(** Modelled from the spec: the macros [SR_KHZ], [SR_MHZ] and [SR_GHZ] of
    libsigrok.h, which is not among the sources; the spec gives the
    boundaries 1 kHz and 1 MHz and the period constants 10^3, 10^6 and
    10^9. *)
Definition SR_KHZ (n : Z) : Z := n * 1000.

(** Modelled from the spec: [SR_MHZ] of libsigrok.h, as above. *)
Definition SR_MHZ (n : Z) : Z := n * 1000000.

(** Modelled from the spec: [SR_GHZ] of libsigrok.h, as above. *)
Definition SR_GHZ (n : Z) : Z := n * 1000000000.

(** [init], the part commented "timescale". *)
Definition select_period (samplerate : Z) : Z :=
  if samplerate >? SR_MHZ 1 then SR_GHZ 1
  else if samplerate >? SR_KHZ 1 then SR_MHZ 1
  else SR_KHZ 1.

(** [((float)ctx->samplecount / ctx->samplerate) * ctx->period]: the
    usual arithmetic conversions turn the rate and the period into
    [float]. *)
Definition float_timestamp (samplecount samplerate period : Z) : Q :=
  Float32.mul
    (Float32.div (Float32.of_int samplecount) (Float32.of_int samplerate))
    (Float32.of_int period).

(** The argument of ["#%" PRIu64] in [receive]:
    [(uint64_t)(((float)ctx->samplecount / ctx->samplerate) * ctx->period)].
    [None] when C leaves the conversion undefined: the rate is zero (the
    quotient is an infinity or a NaN), or the integral part of the product
    is not a value of [uint64_t]. *)
Definition timestamp (samplecount samplerate period : Z) : option Z :=
  if samplerate =? 0 then None
  else
    let v := Float32.trunc (float_timestamp samplecount samplerate period) in
    if (0 <=? v) && (v <? 2 ^ 64) then Some v else None.

(** The value that the specification asks for:
    [floor (k / r * u)] in exact arithmetic. *)
Definition exact_timestamp (k r u : Z) : Z :=
  Qfloor (inject_Z k / inject_Z r * inject_Z u)%Q.

(** ** Session state and [init] *)

Record context := {
  probeindices : list probe_context;
  header : option string;          (* [NULL] once handed out *)
  prevsample : list byte;
  period : Z;
  samplerate : Z;
  unitsize : Z;
  samplecount : Z
}.

Inductive retcode := SR_OK | SR_ERR | SR_ERR_ARG.

(** What [init] takes from outside this file: the clock, the package
    identity of config.h and two formatting helpers of the library. *)
Record host := {
  ctime_now : string;                    (* [ctime(&t)], newline included *)
  PACKAGE : string;
  PACKAGE_VERSION : string;
  sr_samplerate_string : Z -> string;
  sr_period_string : Z -> string
}.

(** The device instance as [init] reads it: the probe list and the answer
    of [sr_config_get(..., SR_CONF_SAMPLERATE, ...)], [None] when that call
    does not return [SR_OK]. *)
Record sr_dev_inst := {
  probes : list sr_probe;
  conf_samplerate : option Z
}.

(** ["$var wire %d %c %s $end\n"] *)
Definition var_line (probe_ctx : probe_context) : string :=
  ("$var wire " ++ decimal (len (indices probe_ctx)) ++ " "
     ++ chr (symbol probe_ctx) ++ " " ++ ctx_name probe_ctx ++ " $end" ++ LF)%string.

Definition header_text (h : host) (probeindices : list probe_context)
    (num_enabled_probes num_probes : Z) (rate : option Z) (period : Z)
  : string :=
  let stamp := substring 0 (String.length (ctime_now h) - 1) (ctime_now h) in
  ("$date " ++ stamp ++ " $end" ++ LF
   ++ "$version " ++ PACKAGE h ++ " " ++ PACKAGE_VERSION h ++ " $end" ++ LF
   ++ match rate with
      | Some r =>
          "$comment" ++ LF ++ "  Acquisition with "
            ++ decimal num_enabled_probes ++ "/" ++ decimal num_probes
            ++ " probes at " ++ sr_samplerate_string h r ++ LF ++ "$end" ++ LF
      | None => ""
      end
   ++ "$timescale " ++ sr_period_string h period ++ " $end" ++ LF
   ++ "$scope module " ++ PACKAGE h ++ " $end" ++ LF
   ++ String.concat "" (map var_line probeindices)
   ++ "$upscope $end" ++ LF ++ "$enddefinitions $end" ++ LF)%string.

(** [g_array_sort(probe_ctx->indices, sort_bits)] in the loop over the
    wires. *)
Definition sort_indices (probe_ctx : probe_context) : probe_context :=
  {| indices := g_array_sort sort_bits (indices probe_ctx);
     symbol := symbol probe_ctx;
     ctx_name := ctx_name probe_ctx;
     is_vector := is_vector probe_ctx |}.

(** [static int init(struct sr_output *o)]. The result is the return code
    and the context left in [o->internal]; [g_malloc0] zeroes the fields
    that the error path does not reach. *)
Definition init (h : host) (sdi : sr_dev_inst) : retcode * context :=
  let (registry, num_enabled_probes) := build_registry (probes sdi) in
  if len registry >? 94 then
    (SR_ERR,
     {| probeindices := registry; header := None; prevsample := [];
        period := 0; samplerate := 0; unitsize := 0; samplecount := 0 |})
  else
    let unitsize := (len registry + 7) / 8 in
    let num_probes := len (probes sdi) in
    let samplerate :=
      match conf_samplerate sdi with Some r => r | None => 0 end in
    let period := select_period samplerate in
    (SR_OK,
     {| probeindices := map sort_indices registry;
        header := Some (header_text h registry num_enabled_probes num_probes
                          (conf_samplerate sdi) period);
        prevsample := repeat Byte.x00 (Z.to_nat unitsize);
        period := period;
        samplerate := samplerate;
        unitsize := unitsize;
        samplecount := 0 |}).

(** ** DeltaEncoder: [receive] *)

(** Outcome of running a piece of C that can leave defined behaviour
    ([Fault]) or run out of fuel ([OutOfFuel]). *)
Inductive outcome (A : Type) : Type :=
| Done (a : A)
| Fault
| OutOfFuel.
Arguments Done {A} a.
Arguments Fault {A}.
Arguments OutOfFuel {A}.

Definition bind {A B : Type} (x : option A) (k : A -> option B) : option B :=
  match x with
  | Some a => k a
  | None => None
  end.

Notation "x <- e ;; k" := (bind e (fun x => k))
  (at level 61, e at next level, right associativity).

(** The [n] bytes at the start of a buffer, when it has that many. *)
Definition mem_read (buf : list byte) (n : Z) : option (list byte) :=
  if n <=? len buf then Some (firstn (Z.to_nat n) buf) else None.

Definition bytes_eqb (a b : list byte) : bool :=
  if list_eq_dec Byte.byte_eq_dec a b then true else false.

(** [!memcmp(a, b, n)] *)
Definition memcmp_eq (a b : list byte) (n : Z) : option bool :=
  x <- mem_read a n ;;
  y <- mem_read b n ;;
  Some (bytes_eqb x y).

(** [memcpy(dst, src, n)]: the new contents of [dst]. *)
Definition memcpy (dst src : list byte) (n : Z) : option (list byte) :=
  _ <- mem_read dst n ;;
  y <- mem_read src n ;;
  Some (y ++ skipn (Z.to_nat n) dst).

(** The first loop over [s] in the body: it leaves with [break] at the
    first bit that differs from the previous sample; the result is [s]
    after the loop. *)
Fixpoint first_change (cur prev : list byte) (idx : list bit_index) (s : Z)
  : option Z :=
  match idx with
  | [] => Some s
  | bidx :: rest =>
      curbit <- get_bit cur (sample bidx) ;;
      prevbit <- get_bit prev (sample bidx) ;;
      if negb (prevbit =? curbit) then Some s
      else first_change cur prev rest (s + 1)
  end.

(** [for (b = from; b > downto; b--) g_string_append_c( *out, 'x');] *)
Definition fill_x (from downto : Z) : string :=
  string_of_list_ascii (repeat "x"%char (Z.to_nat (from - downto))).

(** The second loop over [s]: gap filling and the bit values. *)
Fixpoint render_bits (cur : list byte) (last_bit : Z) (idx : list bit_index)
  : option string :=
  match idx with
  | [] => Some ""
  | bidx :: rest =>
      curbit <- get_bit cur (sample bidx) ;;
      tail <- render_bits cur last_bit rest ;;
      Some (fill_x (last_bit - 1) (bit bidx) ++ decimal curbit ++ tail)%string
  end.

(** The text written for one probe whose value is put out. *)
Definition value_line (cur : list byte) (probe_ctx : probe_context)
  : option string :=
  let last_bit := 0 in
  bits <- render_bits cur last_bit (indices probe_ctx) ;;
  Some ((if is_vector probe_ctx then "b" else "")
        ++ bits
        ++ fill_x (last_bit - 1) (-1)
        ++ (if is_vector probe_ctx then " " else "")
        ++ chr (symbol probe_ctx) ++ LF)%string.

(** One turn of the loop over [p]. *)
Definition probe_output (first : bool) (cur prev : list byte)
    (probe_ctx : probe_context) : option (list string) :=
  s <- first_change cur prev (indices probe_ctx) 0 ;;
  if negb first && negb (s =? len (indices probe_ctx)) then
    (* no changes *)
    Some []
  else
    line <- value_line cur probe_ctx ;;
    Some [line].

Fixpoint probes_output (first : bool) (cur prev : list byte)
    (probeindices : list probe_context) : option (list string) :=
  match probeindices with
  | [] => Some []
  | probe_ctx :: rest =>
      l <- probe_output first cur prev probe_ctx ;;
      ls <- probes_output first cur prev rest ;;
      Some (l ++ ls)
  end.

Definition set_samplecount (ctx : context) (n : Z) : context :=
  {| probeindices := probeindices ctx; header := header ctx;
     prevsample := prevsample ctx; period := period ctx;
     samplerate := samplerate ctx; unitsize := unitsize ctx;
     samplecount := n |}.

Definition set_prevsample (ctx : context) (b : list byte) : context :=
  {| probeindices := probeindices ctx; header := header ctx;
     prevsample := b; period := period ctx;
     samplerate := samplerate ctx; unitsize := unitsize ctx;
     samplecount := samplecount ctx |}.

Definition set_header (ctx : context) (h : option string) : context :=
  {| probeindices := probeindices ctx; header := h;
     prevsample := prevsample ctx; period := period ctx;
     samplerate := samplerate ctx; unitsize := unitsize ctx;
     samplecount := samplecount ctx |}.

Definition DUMPVARS : string := ("$dumpvars" ++ LF)%string.
Definition DUMPEND : string := ("$end" ++ LF)%string.

(** The body of the loop over the samples of a packet. [cur] is the
    buffer from [logic->data + i] on. The result is the context, the flag
    [first] and the pieces of text appended to [*out], one per line. *)
Definition receive_sample (ctx : context) (first : bool) (cur : list byte)
  : option (context * bool * list string) :=
  let ctx := set_samplecount ctx (wrap 64 (samplecount ctx + 1)) in
  same <- (if first then Some false
           else memcmp_eq (prevsample ctx) cur (unitsize ctx)) ;;
  if negb first && same then Some (ctx, first, [])
  else
    t <- timestamp (samplecount ctx) (samplerate ctx) (period ctx) ;;
    lines <- probes_output first cur (prevsample ctx) (probeindices ctx) ;;
    prev <- memcpy (prevsample ctx) cur (unitsize ctx) ;;
    Some (set_prevsample ctx prev, false,
          [("#" ++ decimal t ++ LF)%string]
            ++ (if first then [DUMPVARS] else [])
            ++ lines
            ++ (if first then [DUMPEND] else [])).

Record sr_datafeed_logic := {
  logic_unitsize : Z;
  logic_data : list byte
}.

(** [logic->length]: the size of the buffer behind [logic->data]. *)
Definition logic_length (logic : sr_datafeed_logic) : Z :=
  len (logic_data logic).

Inductive sr_datafeed_packet :=
| SR_DF_LOGIC (logic : sr_datafeed_logic)
| SR_DF_OTHER.

Section Receive.

(** The struct [sr_datafeed_logic] is declared in libsigrok.h, which is
    not among the sources. [length_bits] is the width of the unsigned
    type of its field [length] (libsigrok declares [uint64_t length;
    uint16_t unitsize;]); the loop compares [length - unitsize] with the
    [unsigned int i]. *)
Variable length_bits : Z.

(** [for (i = 0; i <= logic->length - logic->unitsize;
         i += logic->unitsize)] *)
Fixpoint receive_loop (fuel : nat) (logic : sr_datafeed_logic)
    (ctx : context) (first : bool) (i : Z) (out : list string)
  : outcome (context * list string) :=
  match fuel with
  | O => OutOfFuel
  | S fuel' =>
      if i <=? wrap length_bits (logic_length logic - logic_unitsize logic)
      then
        match receive_sample ctx first
                (skipn (Z.to_nat i) (logic_data logic)) with
        | None => Fault
        | Some (ctx', first', lines) =>
            receive_loop fuel' logic ctx' first'
              (wrap 32 (i + logic_unitsize logic)) (out ++ lines)
        end
      else Done (ctx, out)
  end.

(** [static int receive(struct sr_output *o, ..., packet, GString **out)].
    [o] is [o->internal]; the result is the return code, [*out] as the
    list of the pieces appended to it, and [o->internal] afterwards. *)
Definition receive (fuel : nat) (o : option context)
    (packet : sr_datafeed_packet)
  : outcome (retcode * option (list string) * option context) :=
  match o with
  | None => Done (SR_ERR_ARG, None, None)
  | Some ctx =>
      match packet with
      | SR_DF_OTHER => Done (SR_OK, None, Some ctx)
      | SR_DF_LOGIC logic =>
          (* The header is still here, this must be the first packet. *)
          let first := match header ctx with Some _ => true | None => false end in
          let out := match header ctx with Some h => [h] | None => [] end in
          match receive_loop fuel logic (set_header ctx None) first 0 out with
          | Done (ctx', out') => Done (SR_OK, Some out', Some ctx')
          | Fault => Fault
          | OutOfFuel => OutOfFuel
          end
      end
  end.

End Receive.

(** The text of a chunk. *)
Definition text_of (out : list string) : string := String.concat "" out.

Section Session.

Variable length_bits : Z.

(** A session after [init]: [receive] is called for each packet in
    turn on the same [o->internal]. The result is the text of all the
    chunks handed out, in order, and the final state. *)
Fixpoint session (fuel : nat) (o : option context)
    (packets : list sr_datafeed_packet)
  : outcome (list string * option context) :=
  match packets with
  | [] => Done ([], o)
  | packet :: rest =>
      match receive length_bits fuel o packet with
      | Done (_, out, o') =>
          match session fuel o' rest with
          | Done (outs, o'') =>
              Done (match out with Some l => l | None => [] end ++ outs, o'')
          | Fault => Fault
          | OutOfFuel => OutOfFuel
          end
      | Fault => Fault
      | OutOfFuel => OutOfFuel
      end
  end.

End Session.

(** ** Vocabulary of the properties *)

(** The two lines that frame the initial dump. *)
Definition is_marker (line : string) : Prop :=
  line = DUMPVARS \/ line = DUMPEND.

(** The number of whole samples in a packet. *)
Definition whole_samples (logic : sr_datafeed_logic) : Z :=
  logic_length logic / logic_unitsize logic.

Definition packet_samples (packet : sr_datafeed_packet) : Z :=
  match packet with
  | SR_DF_LOGIC logic => whole_samples logic
  | SR_DF_OTHER => 0
  end.

Definition total_samples (packets : list sr_datafeed_packet) : Z :=
  fold_right (fun p n => packet_samples p + n) 0 packets.

(** A bit offset that [get_bit] can read in a buffer of [n] bytes. *)
Definition index_ok (n : Z) (bidx : bit_index) : bool :=
  (0 <=? sample bidx) && (sample bidx <? 31) && (sample bidx / 8 <? n).

(** A context on which [receive] stays within defined behaviour: the
    previous sample has [unitsize] bytes, every bit offset can be read in
    such a buffer, the rate is known and the period is not negative. *)
Definition context_ok (ctx : context) : bool :=
  (len (prevsample ctx) =? unitsize ctx)
  && forallb (fun probe_ctx => forallb (index_ok (unitsize ctx))
                                 (indices probe_ctx))
       (probeindices ctx)
  && (0 <? samplerate ctx) && (0 <=? period ctx) && (0 <=? samplecount ctx).

(** A packet that holds at least one whole sample, of a width that
    covers the bytes the context compares, in a buffer that [unsigned int]
    can index. *)
Definition frame_ok (ctx : context) (logic : sr_datafeed_logic) : bool :=
  (0 <? logic_unitsize logic)
  && (logic_unitsize logic <=? logic_length logic)
  && (logic_length logic <? 2 ^ 32)
  && (unitsize ctx <=? logic_unitsize logic).

Definition packet_ok (ctx : context) (packet : sr_datafeed_packet) : bool :=
  match packet with
  | SR_DF_LOGIC logic => frame_ok ctx logic
  | SR_DF_OTHER => true
  end.

(** The packet that repeats the sample [smp] [total] times. *)
Definition repeated_packet (smp : list byte) (total : nat)
  : sr_datafeed_logic :=
  {| logic_unitsize := len smp;
     logic_data := List.concat (repeat smp total) |}.

(** A string of decimal digits only. *)
Fixpoint all_digits (s : string) : bool :=
  match s with
  | EmptyString => true
  | String c s' => isdigit c && all_digits s'
  end.

(** The order in which [init] leaves the bits of a probe: highest bit
    first. *)
Definition bit_ge (a b : bit_index) : Prop := bit b <= bit a.

(** The number of bit entries that a registry holds. *)
Definition registry_bits (registry : list probe_context) : Z :=
  fold_right (fun probe_ctx n => len (indices probe_ctx) + n) 0 registry.

(** The shape of a registry entry at position [k] of a registry of
    [n] logical probes: the symbol is the [k]-th after ['!'], there is at
    least one bit, a scalar probe has exactly one, at position 0, and no
    offset is negative or above [n]. *)
Definition entry_ok (n : Z) (k : nat) (probe_ctx : probe_context) : Prop :=
  symbol probe_ctx = char_of (code "!"%char + Z.of_nat k) /\
  indices probe_ctx <> [] /\
  (is_vector probe_ctx = false ->
   exists s, indices probe_ctx = [ {| bit := 0; sample := s |} ]) /\
  Forall (fun bidx => 0 <= sample bidx <= n) (indices probe_ctx).

(** Every entry has that shape, and no two vector probes have the same
    name. *)
Definition registry_ok (registry : list probe_context) : Prop :=
  (forall k probe_ctx,
      nth_error registry k = Some probe_ctx ->
      entry_ok (len registry) k probe_ctx) /\
  (forall i j pi pj,
      nth_error registry i = Some pi -> nth_error registry j = Some pj ->
      is_vector pi = true -> is_vector pj = true ->
      ctx_name pi = ctx_name pj -> i = j).

(** The packets that [receive] does not ignore. *)
Definition is_logic (packet : sr_datafeed_packet) : bool :=
  match packet with
  | SR_DF_LOGIC _ => true
  | SR_DF_OTHER => false
  end.

(** What a turn of the sample loop leaves alone. *)
Definition same_session (ctx ctx' : context) : Prop :=
  probeindices ctx' = probeindices ctx /\
  header ctx' = header ctx /\
  period ctx' = period ctx /\
  samplerate ctx' = samplerate ctx /\
  unitsize ctx' = unitsize ctx.

(** ** Inputs used to run the code *)

Definition demo_host : host :=
  {| ctime_now := ("Thu Jan  1 00:00:00 1970" ++ LF)%string;
     PACKAGE := "libsigrok";
     PACKAGE_VERSION := "0.2.0";
     sr_samplerate_string := fun r => (decimal r ++ " Hz")%string;
     sr_period_string := fun p => (decimal p ++ " Hz")%string |}.

Definition probe_on (n : string) : sr_probe := {| enabled := true; name := n |}.

(** The bits [base<0>], ..., [base<n-1>] of one vector, all enabled. *)
Definition vector_bits (base : string) (n : nat) : list sr_probe :=
  map (fun i => probe_on (base ++ "<" ++ decimal (Z.of_nat i) ++ ">")%string)
      (seq 0 n).

(** [n] enabled scalar probes [p0], [p1], ... *)
Definition scalar_probes (n : nat) : list sr_probe :=
  map (fun i => probe_on ("p" ++ decimal (Z.of_nat i))%string) (seq 0 n).

(** One enabled probe and a reported rate of exactly 1 MHz. *)
Definition sdi_1mhz : sr_dev_inst :=
  {| probes := [probe_on "D0"]; conf_samplerate := Some 1000000 |}.

(** Two bits of the vector [a] with scalar probes in between and after. *)
Definition sdi_interleaved : sr_dev_inst :=
  {| probes := [probe_on "a<0>"; probe_on "b"; probe_on "a<1>"; probe_on "c"];
     conf_samplerate := Some 1000 |}.

(** A probe list of 95 entries that are the bits of a single vector. *)
Definition sdi_vector95 : sr_dev_inst :=
  {| probes := vector_bits "d" 95; conf_samplerate := Some 1000 |}.

(** A probe list of 95 enabled scalar probes. *)
Definition sdi_scalar95 : sr_dev_inst :=
  {| probes := scalar_probes 95; conf_samplerate := Some 1000 |}.

(** A device that reports no sample rate. *)
Definition sdi_norate : sr_dev_inst :=
  {| probes := [probe_on "D0"; probe_on "D1"]; conf_samplerate := None |}.

(** An enabled probe whose name has no vector suffix. *)
Definition scalar_enabled (p : sr_probe) : Prop :=
  enabled p = true /\ get_array_str (name p) = None.

(** The registry entry that a scalar probe gets as the [i]-th logical
    probe. *)
Definition scalar_entry (i : Z) (p : sr_probe) : probe_context :=
  {| indices := [ {| bit := 0; sample := i |} ];
     symbol := char_of (code "!"%char + i);
     ctx_name := name p;
     is_vector := false |}.

Fixpoint scalar_registry (i : Z) (ps : list sr_probe) : list probe_context :=
  match ps with
  | [] => []
  | p :: ps' => scalar_entry i p :: scalar_registry (i + 1) ps'
  end.

(** The number of logical probes: enabled entries after vector grouping. *)
Definition logical_probe_count (probes : list sr_probe) : Z :=
  len (fst (build_registry probes)).

(** The vector [name] declared at the bits 3 and 0 only. *)
Definition sdi_gap : sr_dev_inst :=
  {| probes := [probe_on "name<3>"; probe_on "name<0>"];
     conf_samplerate := Some 1000 |}.

(** One sample in which [name<3>] (offset 0) is 1 and [name<0>]
    (offset 1) is 0. *)
Definition frame_gap : sr_datafeed_logic :=
  {| logic_unitsize := 1; logic_data := [Byte.x01] |}.

(** Nine scalar probes: a sample takes two bytes. *)
Definition sdi_nine : sr_dev_inst :=
  {| probes := scalar_probes 9; conf_samplerate := Some 1000 |}.

(** A packet of one byte whose sample width is two bytes. *)
Definition frame_short : sr_datafeed_logic :=
  {| logic_unitsize := 2; logic_data := [Byte.x01] |}.

(** A session at 1 Hz that has counted 2^24 samples. *)
Definition sdi_1hz : sr_dev_inst :=
  {| probes := [probe_on "D0"]; conf_samplerate := Some 1 |}.

Definition ctx_late : context :=
  set_samplecount (set_header (snd (init demo_host sdi_1hz)) None) (2 ^ 24).

(** A session: a packet that is not logic data, then two logic packets
    of three and two samples. *)
Definition demo_packets : list sr_datafeed_packet :=
  [ SR_DF_OTHER;
    SR_DF_LOGIC {| logic_unitsize := 1;
                   logic_data := [Byte.x00; Byte.x00; Byte.x02] |};
    SR_DF_LOGIC {| logic_unitsize := 1;
                   logic_data := [Byte.x02; Byte.x03] |} ].

(** Two vectors whose bits alternate in the probe list. *)
Definition two_vectors : list sr_probe :=
  [probe_on "a<0>"; probe_on "b<0>"; probe_on "a<1>"; probe_on "b<1>"].

(** Eight logical probes: the first bit of the vector [v] and seven
    scalar probes. *)
Definition eight_probes : list sr_probe :=
  probe_on "v<0>" :: scalar_probes 7.

(** The second bit of [v] comes last. *)
Definition sdi_eight : sr_dev_inst :=
  {| probes := eight_probes ++ [probe_on "v<1>"];
     conf_samplerate := Some 1000 |}.

(** The entry that [init] leaves for the probes of [sdi_gap]. *)
Definition entry_gap : probe_context :=
  {| indices := [ {| bit := 3; sample := 0 |}; {| bit := 0; sample := 1 |} ];
     symbol := "!"%char;
     ctx_name := "name";
     is_vector := true |}.

(** Three samples of one byte. *)
Definition frame_three : sr_datafeed_logic :=
  {| logic_unitsize := 1; logic_data := [Byte.x00; Byte.x00; Byte.x02] |}.


(** * Properties *)

(** ** Machine integers *)

Lemma uint8_range (b : byte) : 0 <= uint8 b < 256.
Proof.
  unfold uint8. pose proof (Byte.to_N_bounded b) as H. lia.
Qed.

Lemma wrap_small (w x : Z) : 0 <= x < 2 ^ w -> wrap w x = x.
Proof. intros H. unfold wrap. now apply Z.mod_small. Qed.

Lemma wrap_range (w x : Z) : 0 <= w -> 0 <= wrap w x < 2 ^ w.
Proof.
  intros Hw. unfold wrap. apply Z.mod_pos_bound.
  now apply Z.pow_pos_nonneg.
Qed.

(** ** BitAccessor *)

Lemma land_one_bit (a idx : Z) :
  0 <= idx ->
  Z.land a (Z.shiftl 1 idx) = if Z.testbit a idx then 2 ^ idx else 0.
Proof.
  intros Hidx. apply Z.bits_inj'. intros n Hn.
  rewrite Z.land_spec, Z.shiftl_spec by assumption.
  destruct (Z.eq_dec n idx) as [-> | Hne].
  - rewrite Z.sub_diag. change (Z.testbit 1 0) with true.
    rewrite andb_true_r.
    destruct (Z.testbit a idx) eqn:E.
    + now rewrite Z.pow2_bits_true.
    + now rewrite Z.bits_0.
  - assert (Z.testbit 1 (n - idx) = false) as ->.
    { destruct (Z.ltb_spec n idx).
      - apply Z.testbit_neg_r. lia.
      - replace 1 with (2 ^ 0) by reflexivity.
        apply Z.pow2_bits_false. lia. }
    rewrite andb_false_r.
    destruct (Z.testbit a idx).
    + symmetry. apply Z.pow2_bits_false. lia.
    + now rewrite Z.bits_0.
Qed.

Lemma byte_high_bits (b : byte) (idx : Z) :
  8 <= idx -> Z.testbit (uint8 b) idx = false.
Proof.
  intros H. pose proof (uint8_range b) as Hb.
  destruct (Z.eq_dec (uint8 b) 0) as [-> | Hnz].
  - apply Z.bits_0.
  - apply Z.bits_above_log2; [lia|].
    assert (Z.log2 (uint8 b) < 8); [|lia].
    apply Z.log2_lt_pow2; lia.
Qed.

(** On the first byte of the buffer the accessor is the specified one. *)
Lemma get_bit_first_byte (buffer : list byte) (idx : Z) :
  0 <= idx < 8 -> get_bit buffer idx = logic_bit buffer idx.
Proof.
  intros H. unfold get_bit, logic_bit.
  replace ((idx <? 0) || (31 <=? idx)) with false by lia.
  rewrite Z.quot_small, Z.div_small, Z.mod_small by lia.
  destruct (nth_error buffer (Z.to_nat 0)) as [b|]; [|reflexivity].
  rewrite land_one_bit by lia.
  destruct (Z.testbit (uint8 b) idx); [|reflexivity].
  assert (0 < 2 ^ idx) by (apply Z.pow_pos_nonneg; lia).
  replace (2 ^ idx =? 0) with false by lia. reflexivity.
Qed.

(** Past the first byte the mask [1 << idx] selects no bit of the byte
    read: the accessor answers 0 whatever the buffer holds. *)
Lemma get_bit_past_first_byte (buffer : list byte) (idx : Z) (b : byte) :
  8 <= idx < 31 ->
  nth_error buffer (Z.to_nat (idx / 8)) = Some b ->
  get_bit buffer idx = Some 0.
Proof.
  intros H Hb. unfold get_bit.
  replace ((idx <? 0) || (31 <=? idx)) with false by lia.
  rewrite Z.quot_div_nonneg by lia. rewrite Hb.
  rewrite land_one_bit by lia.
  now rewrite byte_high_bits by lia.
Qed.

(** C2. At absolute bit index 8 of the two-byte buffer [00 01] the
    accessor of the code returns 0, while the logic bit at that index
    (bit 0 of byte 1) is 1: the mask is [1 << idx], not [1 << (idx % 8)]. *)
Theorem get_bit_index_8 :
  get_bit [Byte.x00; Byte.x01] 8 = Some 0 /\
  logic_bit [Byte.x00; Byte.x01] 8 = Some 1.
Proof. split; reflexivity. Qed.

(** ** Single-precision arithmetic *)

Module Float32Facts.
Import Float32.
#[local] Open Scope Q_scope.

Lemma two_ne_0 : ~ (2 # 1) == 0.
Proof. discriminate. Qed.

Lemma two_pow_pos (e : Z) : 0 < two_pow e.
Proof. apply Qpower_0_lt. reflexivity. Qed.

Lemma two_pow_add (a b : Z) : two_pow (a + b) == two_pow a * two_pow b.
Proof. apply Qpower_plus, two_ne_0. Qed.

Lemma two_pow_le (a b : Z) : (a <= b)%Z -> two_pow a <= two_pow b.
Proof. intros H. apply Qpower_le_compat_l; [assumption | discriminate]. Qed.

Lemma two_pow_lt_inv (a b : Z) : two_pow a < two_pow b -> (a < b)%Z.
Proof. intros H. apply (Qpower_lt_compat_l_inv (2 # 1)); [assumption | reflexivity]. Qed.

Lemma two_pow_Z (n : Z) : (0 <= n)%Z -> two_pow n == inject_Z (2 ^ n).
Proof. intros H. unfold two_pow. now rewrite Zpower_Qpower. Qed.

Lemma two_pow_succ (e : Z) : two_pow (e + 1) == 2 * two_pow e.
Proof. rewrite two_pow_add. change (two_pow 1) with (2 # 1). ring. Qed.

(** Scaling by a power of two and back. *)
Lemma two_pow_cancel (q : Q) (e : Z) : q / two_pow e * two_pow e == q.
Proof. field. pose proof (two_pow_pos e). lra. Qed.

Lemma ilog2_spec (q : Q) :
  0 < q -> two_pow (ilog2 q) <= q /\ q < two_pow (ilog2 q + 1).
Proof.
  intros Hq. destruct q as [n d].
  assert (Hn : (0 < n)%Z) by (unfold Qlt in Hq; cbn in Hq; lia).
  unfold ilog2. cbn [Qnum Qden].
  set (a := Z.log2 n). set (b := Z.log2 (Z.pos d)).
  destruct (Z.log2_spec n Hn) as [Ha1 Ha2]. fold a in Ha1, Ha2.
  destruct (Z.log2_spec (Z.pos d) (Pos2Z.is_pos d)) as [Hb1 Hb2].
  fold b in Hb1, Hb2.
  assert (Ha0 : (0 <= a)%Z) by apply Z.log2_nonneg.
  assert (Hb0 : (0 <= b)%Z) by apply Z.log2_nonneg.
  assert (Hqd : (n # d) * inject_Z (Z.pos d) == inject_Z n).
  { rewrite (Qmake_Qdiv n d). field. discriminate. }
  assert (Hd : 0 < inject_Z (Z.pos d)) by reflexivity.
  rewrite Zle_Qle, <- two_pow_Z in Ha1 by lia.
  rewrite Zlt_Qlt, <- two_pow_Z in Ha2 by lia.
  rewrite Zle_Qle, <- two_pow_Z in Hb1 by lia.
  rewrite Zlt_Qlt, <- two_pow_Z in Hb2 by lia.
  change (Z.succ a) with (a + 1)%Z in Ha2.
  change (Z.succ b) with (b + 1)%Z in Hb2.
  assert (Hup : (n # d) < two_pow (a - b + 1)).
  { apply (Qmult_lt_r _ _ (inject_Z (Z.pos d))); [assumption|].
    rewrite Hqd.
    apply Qlt_le_trans with (two_pow (a + 1)); [assumption|].
    replace (a + 1)%Z with ((a - b + 1) + b)%Z by ring.
    rewrite two_pow_add.
    apply Qmult_le_l; [apply two_pow_pos | assumption]. }
  assert (Hlo : two_pow (a - b - 1) <= (n # d)).
  { apply (Qmult_le_r _ _ (inject_Z (Z.pos d))); [assumption|].
    rewrite Hqd.
    apply Qle_trans with (two_pow a); [|assumption].
    replace a with ((a - b - 1) + (b + 1))%Z at 2 by ring.
    rewrite two_pow_add.
    apply Qmult_le_l; [apply two_pow_pos | apply Qlt_le_weak; assumption]. }
  destruct (Qle_bool (two_pow (a - b)) (n # d)) eqn:E.
  - apply Qle_bool_iff in E. split; assumption.
  - split; [assumption|].
    replace (a - b - 1 + 1)%Z with (a - b)%Z by ring.
    apply Qnot_le_lt. intros H. apply Qle_bool_iff in H. congruence.
Qed.

Lemma ilog2_unique (q : Q) (e : Z) :
  two_pow e <= q -> q < two_pow (e + 1) -> ilog2 q = e.
Proof.
  intros H1 H2.
  assert (Hq : 0 < q) by (pose proof (two_pow_pos e); lra).
  destruct (ilog2_spec q Hq) as [H3 H4].
  assert (ilog2 q < e + 1)%Z by (apply two_pow_lt_inv; lra).
  assert (e < ilog2 q + 1)%Z by (apply two_pow_lt_inv; lra).
  lia.
Qed.

Lemma ilog2_mono (q1 q2 : Q) : 0 < q1 -> q1 <= q2 -> (ilog2 q1 <= ilog2 q2)%Z.
Proof.
  intros H1 H12.
  destruct (ilog2_spec q1 H1) as [H3 _].
  destruct (ilog2_spec q2) as [_ H4]; [lra|].
  assert (ilog2 q1 < ilog2 q2 + 1)%Z by (apply two_pow_lt_inv; lra).
  lia.
Qed.


Lemma rne_bounds (x : Q) : (Qfloor x <= rne x <= Qfloor x + 1)%Z.
Proof.
  unfold rne.
  destruct (x - inject_Z (Qfloor x) ?= 1 # 2); [destruct (Z.even _)| |]; lia.
Qed.

Lemma rne_mono (x y : Q) : x <= y -> (rne x <= rne y)%Z.
Proof.
  intros Hxy. pose proof (Qfloor_resp_le x y Hxy) as Hf.
  destruct (Z.eq_dec (Qfloor x) (Qfloor y)) as [E|NE].
  - unfold rne. rewrite <- E.
    destruct (Qcompare_spec (x - inject_Z (Qfloor x)) (1 # 2));
      destruct (Qcompare_spec (y - inject_Z (Qfloor x)) (1 # 2));
      try destruct (Z.even (Qfloor x)); try lia; exfalso; lra.
  - pose proof (rne_bounds x). pose proof (rne_bounds y). lia.
Qed.

Lemma rne_comp (x y : Q) : x == y -> rne x = rne y.
Proof.
  intros E. apply Z.le_antisymm; apply rne_mono; lra.
Qed.

Lemma rne_Z (z : Z) : rne (inject_Z z) = z.
Proof.
  unfold rne. rewrite Qfloor_Z.
  destruct (Qcompare_spec (inject_Z z - inject_Z z) (1 # 2));
    [exfalso; lra | reflexivity | exfalso; lra].
Qed.

(** The rounded integer is within one half of the argument. *)
Lemma rne_half (x : Q) :
  x - (1 # 2) <= inject_Z (rne x) /\ inject_Z (rne x) <= x + (1 # 2).
Proof.
  unfold rne. pose proof (Qfloor_le x) as H1. pose proof (Qlt_floor x) as H2.
  rewrite inject_Z_plus in H2. change (inject_Z 1) with 1 in H2.
  destruct (Qcompare_spec (x - inject_Z (Qfloor x)) (1 # 2));
    [destruct (Z.even _)| |];
    rewrite ?inject_Z_plus; change (inject_Z 1) with 1; lra.
Qed.

(** The scaled significand of a positive number lies in [2^23, 2^24). *)
Lemma significand_range (q : Q) :
  0 < q ->
  let e := (ilog2 q - (prec - 1))%Z in
  two_pow (prec - 1) <= q / two_pow e /\ q / two_pow e < two_pow prec.
Proof.
  intros Hq e. destruct (ilog2_spec q Hq) as [H1 H2].
  pose proof (two_pow_pos e) as He.
  split.
  - apply Qle_shift_div_l; [assumption|].
    rewrite <- two_pow_add.
    now replace (prec - 1 + e)%Z with (ilog2 q) by (unfold e; ring).
  - apply Qlt_shift_div_r; [assumption|].
    rewrite <- two_pow_add.
    now replace (prec + e)%Z with (ilog2 q + 1)%Z by (unfold e; ring).
Qed.

Lemma round_pos_bounds (q : Q) :
  0 < q ->
  two_pow (ilog2 q) <= round_pos q /\ round_pos q <= two_pow (ilog2 q + 1).
Proof.
  intros Hq. unfold round_pos.
  set (e := (ilog2 q - (prec - 1))%Z).
  destruct (significand_range q Hq) as [H1 H2]. fold e in H1, H2.
  pose proof (two_pow_pos e) as He.
  assert (Hlo : (2 ^ (prec - 1) <= rne (q / two_pow e))%Z).
  { rewrite <- (rne_Z (2 ^ (prec - 1))). apply rne_mono.
    rewrite <- two_pow_Z by (unfold prec; lia). assumption. }
  assert (Hhi : (rne (q / two_pow e) <= 2 ^ prec)%Z).
  { rewrite <- (rne_Z (2 ^ prec)). apply rne_mono.
    rewrite <- two_pow_Z by (unfold prec; lia). lra. }
  rewrite Zle_Qle, <- two_pow_Z in Hlo by (unfold prec; lia).
  rewrite Zle_Qle, <- two_pow_Z in Hhi by (unfold prec; lia).
  split.
  - replace (ilog2 q) with (prec - 1 + e)%Z at 1 by (unfold e; ring).
    rewrite two_pow_add. apply Qmult_le_compat_r; lra.
  - replace (ilog2 q + 1)%Z with (prec + e)%Z by (unfold e; ring).
    rewrite two_pow_add. apply Qmult_le_compat_r; lra.
Qed.

Lemma round_pos_positive (q : Q) : 0 < q -> 0 < round_pos q.
Proof.
  intros Hq. destruct (round_pos_bounds q Hq) as [H _].
  pose proof (two_pow_pos (ilog2 q)). lra.
Qed.

Lemma round_pos_mono (q1 q2 : Q) :
  0 < q1 -> q1 <= q2 -> round_pos q1 <= round_pos q2.
Proof.
  intros H1 H12. assert (H2 : 0 < q2) by lra.
  pose proof (ilog2_mono q1 q2 H1 H12) as He.
  destruct (Z.eq_dec (ilog2 q1) (ilog2 q2)) as [E|NE].
  - unfold round_pos. rewrite E.
    set (e := (ilog2 q2 - (prec - 1))%Z).
    pose proof (two_pow_pos e) as Hp.
    apply Qmult_le_compat_r; [|lra].
    rewrite <- Zle_Qle. apply rne_mono.
    apply Qle_shift_div_l; [assumption|]. rewrite two_pow_cancel. assumption.
  - destruct (round_pos_bounds q1 H1) as [_ Hu].
    destruct (round_pos_bounds q2 H2) as [Hl _].
    assert (two_pow (ilog2 q1 + 1) <= two_pow (ilog2 q2))
      by (apply two_pow_le; lia).
    lra.
Qed.

Lemma round_zero (q : Q) : q == 0 -> round q = 0.
Proof.
  intros E. unfold round. now rewrite (proj1 (Qeq_alt q 0) E).
Qed.

Lemma round_of_pos (q : Q) : 0 < q -> round q = round_pos q.
Proof.
  intros H. unfold round. now rewrite (proj1 (Qgt_alt q 0) H).
Qed.

Lemma round_of_neg (q : Q) : q < 0 -> round q = - round_pos (- q).
Proof.
  intros H. unfold round. now rewrite (proj1 (Qlt_alt q 0) H).
Qed.

(** Rounding preserves the order. *)
Lemma round_mono (q1 q2 : Q) : q1 <= q2 -> round q1 <= round q2.
Proof.
  intros H.
  destruct (Qcompare_spec q1 0) as [E1|L1|G1];
    destruct (Qcompare_spec q2 0) as [E2|L2|G2];
    try (exfalso; lra).
  - rewrite (round_zero q1), (round_zero q2) by assumption. lra.
  - rewrite (round_zero q1), (round_of_pos q2) by assumption.
    pose proof (round_pos_positive q2 G2). lra.
  - rewrite (round_of_neg q1), (round_zero q2) by assumption.
    pose proof (round_pos_positive (- q1)). lra.
  - rewrite (round_of_neg q1), (round_of_neg q2) by assumption.
    pose proof (round_pos_mono (- q2) (- q1)). lra.
  - rewrite (round_of_neg q1), (round_of_pos q2) by assumption.
    pose proof (round_pos_positive (- q1)).
    pose proof (round_pos_positive q2 G2). lra.
  - rewrite (round_of_pos q1), (round_of_pos q2) by assumption.
    now apply round_pos_mono.
Qed.

#[export] Instance round_comp : Proper (Qeq ==> Qeq) round.
Proof.
  intros x y E. apply Qle_antisym; apply round_mono; lra.
Qed.

Lemma round_nonneg (q : Q) : 0 <= q -> 0 <= round q.
Proof. intros H. change 0 with (round 0) at 1. now apply round_mono. Qed.

Lemma round_positive (q : Q) : 0 < q -> 0 < round q.
Proof. intros H. rewrite round_of_pos by assumption. now apply round_pos_positive. Qed.


Lemma round_pos_exact (m e : Z) :
  (0 < m < 2 ^ prec)%Z ->
  round_pos (inject_Z m * two_pow e) == inject_Z m * two_pow e.
Proof.
  intros [Hm0 Hm]. set (q := inject_Z m * two_pow e).
  destruct (Z.log2_spec m Hm0) as [HL1 HL2].
  set (L := Z.log2 m) in *.
  assert (HL0 : (0 <= L)%Z) by apply Z.log2_nonneg.
  assert (HL : (L < prec)%Z).
  { apply (Z.pow_lt_mono_r_iff 2); unfold prec in *; lia. }
  rewrite Zle_Qle, <- two_pow_Z in HL1 by lia.
  rewrite Zlt_Qlt, <- two_pow_Z in HL2 by lia.
  change (Z.succ L) with (L + 1)%Z in HL2.
  pose proof (two_pow_pos e) as He.
  assert (Hilog : ilog2 q = (L + e)%Z).
  { apply ilog2_unique; unfold q.
    - rewrite two_pow_add. apply Qmult_le_compat_r; lra.
    - replace (L + e + 1)%Z with (L + 1 + e)%Z by ring.
      rewrite two_pow_add. apply Qmult_lt_compat_r; assumption. }
  unfold round_pos. rewrite Hilog.
  set (E := (L + e - (prec - 1))%Z).
  pose proof (two_pow_pos E) as HE.
  assert (Hs : q / two_pow E == inject_Z (m * 2 ^ (prec - 1 - L))).
  { rewrite inject_Z_mult, <- two_pow_Z by lia.
    apply (Qmult_inj_r _ _ (two_pow E)); [lra|].
    rewrite two_pow_cancel.
    unfold q. rewrite <- Qmult_assoc, <- two_pow_add.
    now replace (prec - 1 - L + E)%Z with e by (unfold E; ring). }
  rewrite (rne_comp _ _ Hs), rne_Z.
  rewrite inject_Z_mult, <- two_pow_Z by lia.
  rewrite <- Qmult_assoc, <- two_pow_add.
  now replace (prec - 1 - L + E)%Z with e by (unfold E; ring).
Qed.

(** A number with a 24-bit significand is its own rounding. *)
Lemma round_exact (q : Q) : representable q -> round q == q.
Proof.
  intros (m & e & Hm & E). rewrite E.
  pose proof (two_pow_pos e) as He.
  destruct (Z.lt_trichotomy m 0) as [Hneg | [-> | Hpos]].
  - assert (Hq : inject_Z m * two_pow e < 0).
    { assert (inject_Z m < 0) by (rewrite (Zlt_Qlt m 0) in Hneg; exact Hneg).
      assert (0 < - inject_Z m * two_pow e)
        by (apply Qmult_lt_0_compat; lra).
      lra. }
    rewrite (round_of_neg _ Hq).
    assert (Hopp : - (inject_Z m * two_pow e) == inject_Z (- m) * two_pow e)
      by (rewrite inject_Z_opp; ring).
    assert (Hr : round_pos (- (inject_Z m * two_pow e)) ==
                 inject_Z (- m) * two_pow e).
    { assert (Hp : 0 < - (inject_Z m * two_pow e)) by lra.
      rewrite <- (round_of_pos _ Hp), Hopp.
      rewrite round_of_pos by lra.
      apply round_pos_exact. lia. }
    rewrite Hr. rewrite inject_Z_opp. ring.
  - rewrite round_zero; [|]; ring.
  - assert (Hq : 0 < inject_Z m * two_pow e).
    { apply Qmult_lt_0_compat; [|assumption].
      rewrite (Zlt_Qlt 0 m) in Hpos. exact Hpos. }
    rewrite (round_of_pos _ Hq). apply round_pos_exact. lia.
Qed.

Lemma representable_int (n : Z) :
  (Z.abs n < 2 ^ prec)%Z -> representable (inject_Z n).
Proof.
  intros H. exists n, 0%Z. split; [assumption|].
  change (two_pow 0) with 1. ring.
Qed.

(** One rounding moves a number by at most half a unit in the last place. *)
Lemma round_pos_error (q : Q) :
  0 < q ->
  q * (1 - ulp_half) <= round_pos q /\ round_pos q <= q * (1 + ulp_half).
Proof.
  intros Hq. unfold round_pos.
  set (e := (ilog2 q - (prec - 1))%Z).
  destruct (ilog2_spec q Hq) as [Hlo _].
  pose proof (two_pow_pos e) as He.
  destruct (rne_half (q / two_pow e)) as [H1 H2].
  assert (Hs : q / two_pow e * two_pow e == q) by apply two_pow_cancel.
  assert (Hu : two_pow e * (1 # 2) <= q * ulp_half).
  { assert (Hx : two_pow e == two_pow (ilog2 q) * two_pow (- (prec - 1))).
    { rewrite <- two_pow_add. unfold e.
      now replace (ilog2 q + - (prec - 1))%Z with (ilog2 q - (prec - 1))%Z by ring. }
    rewrite Hx.
    assert (Hc : two_pow (- (prec - 1)) * (1 # 2) == ulp_half) by reflexivity.
    rewrite <- Qmult_assoc, Hc.
    apply Qmult_le_compat_r; [assumption | discriminate]. }
  split.
  - apply Qle_trans with ((q / two_pow e - (1 # 2)) * two_pow e).
    + setoid_replace ((q / two_pow e - (1 # 2)) * two_pow e)
        with (q - two_pow e * (1 # 2)) by (rewrite <- Hs at 2; ring).
      lra.
    + apply Qmult_le_compat_r; lra.
  - apply Qle_trans with ((q / two_pow e + (1 # 2)) * two_pow e).
    + apply Qmult_le_compat_r; lra.
    + setoid_replace ((q / two_pow e + (1 # 2)) * two_pow e)
        with (q + two_pow e * (1 # 2)) by (rewrite <- Hs at 2; ring).
      lra.
Qed.

Lemma round_error (q : Q) :
  0 <= q ->
  q * (1 - ulp_half) <= round q /\ round q <= q * (1 + ulp_half).
Proof.
  intros Hq. destruct (Qcompare_spec q 0) as [E|L|G].
  - rewrite (round_zero q E). rewrite E. split; lra.
  - lra.
  - rewrite (round_of_pos q G). now apply round_pos_error.
Qed.


Lemma Qinv_le_contravar (a b : Q) : 0 < a -> a <= b -> / b <= / a.
Proof.
  intros Ha Hab. destruct (Qlt_le_dec a b) as [L|G].
  - assert (Hb : 0 < b) by lra.
    apply Qlt_le_weak. exact (proj1 (Qinv_lt_contravar a b Ha Hb) L).
  - assert (E : a == b) by lra. rewrite E. apply Qle_refl.
Qed.

End Float32Facts.

Module TimestampFacts.
Import Float32 Float32Facts.
#[local] Open Scope Q_scope.

Lemma of_int_mono (k1 k2 : Z) : (k1 <= k2)%Z -> of_int k1 <= of_int k2.
Proof.
  intros H. apply round_mono. now rewrite <- Zle_Qle.
Qed.

Lemma of_int_nonneg (k : Z) : (0 <= k)%Z -> 0 <= of_int k.
Proof. intros H. apply (of_int_mono 0 k H). Qed.

Lemma of_int_positive (r : Z) : (0 < r)%Z -> 0 < of_int r.
Proof.
  intros H. apply round_positive.
  rewrite (Zlt_Qlt 0 r) in H. exact H.
Qed.

Lemma float_timestamp_mono (k1 k2 r u : Z) :
  (k1 <= k2)%Z -> (0 < r)%Z -> (0 <= u)%Z ->
  float_timestamp k1 r u <= float_timestamp k2 r u.
Proof.
  intros Hk Hr Hu. unfold float_timestamp, mul, div.
  pose proof (of_int_mono k1 k2 Hk) as H1.
  pose proof (of_int_positive r Hr) as H2.
  pose proof (of_int_nonneg u Hu) as H3.
  apply round_mono. apply Qmult_le_compat_r; [|assumption].
  apply round_mono. unfold Qdiv. apply Qmult_le_compat_r; [assumption|].
  apply Qlt_le_weak. now apply Qinv_lt_0_compat.
Qed.

Lemma float_timestamp_nonneg (k r u : Z) :
  (0 <= k)%Z -> (0 < r)%Z -> (0 <= u)%Z -> 0 <= float_timestamp k r u.
Proof.
  intros Hk Hr Hu. unfold float_timestamp, mul, div.
  pose proof (of_int_nonneg k Hk) as H1.
  pose proof (of_int_positive r Hr) as H2.
  pose proof (of_int_nonneg u Hu) as H3.
  apply round_nonneg. apply Qmult_le_0_compat; [|assumption].
  apply round_nonneg. unfold Qdiv. apply Qmult_le_0_compat; [assumption|].
  apply Qlt_le_weak. now apply Qinv_lt_0_compat.
Qed.

Lemma trunc_nonneg (x : Q) : 0 <= x -> trunc x = Qfloor x.
Proof.
  intros H. unfold trunc. apply Qle_bool_iff in H. now rewrite H.
Qed.

Lemma timestamp_value (k r u : Z) :
  (0 <= k)%Z -> (0 < r)%Z -> (0 <= u)%Z ->
  timestamp k r u =
  if (Qfloor (float_timestamp k r u) <? 2 ^ 64)%Z
  then Some (Qfloor (float_timestamp k r u)) else None.
Proof.
  intros Hk Hr Hu. unfold timestamp.
  replace (r =? 0)%Z with false by lia.
  pose proof (float_timestamp_nonneg k r u Hk Hr Hu) as H.
  cbv zeta. rewrite (trunc_nonneg _ H).
  assert (0 <= Qfloor (float_timestamp k r u))%Z.
  { change 0%Z with (Qfloor 0). now apply Qfloor_resp_le. }
  replace (0 <=? Qfloor (float_timestamp k r u))%Z with true by lia.
  reflexivity.
Qed.

(** The timestamp does not decrease when the sample count grows, and it
    stays defined below a count at which it is defined. *)
Lemma timestamp_mono (k1 k2 r u t2 : Z) :
  (0 <= k1 <= k2)%Z -> (0 < r)%Z -> (0 <= u)%Z ->
  timestamp k2 r u = Some t2 ->
  exists t1, timestamp k1 r u = Some t1 /\ (t1 <= t2)%Z.
Proof.
  intros [Hk1 Hk] Hr Hu H2.
  rewrite timestamp_value in H2 by lia.
  rewrite timestamp_value by lia.
  pose proof (Qfloor_resp_le _ _ (float_timestamp_mono k1 k2 r u Hk Hr Hu)) as Hm.
  destruct (Z.ltb_spec (Qfloor (float_timestamp k2 r u)) (2 ^ 64)); [|discriminate].
  injection H2 as <-.
  destruct (Z.ltb_spec (Qfloor (float_timestamp k1 r u)) (2 ^ 64)); [|lia].
  eexists. split; [reflexivity | assumption].
Qed.

(** When the operands, the quotient and the product all have a 24-bit
    significand, no operation rounds and the timestamp is the exact one. *)
Lemma timestamp_exact (k r u : Z) :
  (0 <= k)%Z -> (0 < r)%Z -> (0 <= u)%Z ->
  representable (inject_Z k) ->
  representable (inject_Z r) ->
  representable (inject_Z u) ->
  representable (inject_Z k / inject_Z r) ->
  representable (inject_Z k / inject_Z r * inject_Z u) ->
  (exact_timestamp k r u < 2 ^ 64)%Z ->
  timestamp k r u = Some (exact_timestamp k r u).
Proof.
  intros Hk Hr Hu Rk Rr Ru Rq Rp Hlt.
  rewrite timestamp_value by assumption.
  assert (E : float_timestamp k r u == inject_Z k / inject_Z r * inject_Z u).
  { unfold float_timestamp, mul, div, of_int.
    rewrite (round_exact _ Rk), (round_exact _ Rr), (round_exact _ Ru).
    rewrite (round_exact _ Rq). now rewrite (round_exact _ Rp). }
  rewrite (Qfloor_comp _ _ E). fold (exact_timestamp k r u).
  destruct (Z.ltb_spec (exact_timestamp k r u) (2 ^ 64)); [reflexivity | lia].
Qed.

(** The product before truncation is within a relative error of a few
    units in the last place of the exact value. *)
Lemma float_timestamp_error (k r u : Z) :
  (0 <= k)%Z -> (0 < r)%Z -> (0 <= u)%Z ->
  representable (inject_Z u) ->
  let x := inject_Z k / inject_Z r * inject_Z u in
  x * (1 - (4 # 1) * ulp_half) <= float_timestamp k r u /\
  float_timestamp k r u <= x * (1 + (5 # 1) * ulp_half).
Proof.
  intros Hk Hr Hu Ru x.
  assert (HK : 0 <= inject_Z k) by (rewrite (Zle_Qle 0 k) in Hk; exact Hk).
  assert (HR : 0 < inject_Z r) by (rewrite (Zlt_Qlt 0 r) in Hr; exact Hr).
  assert (HU : 0 <= inject_Z u) by (rewrite (Zle_Qle 0 u) in Hu; exact Hu).
  set (K := inject_Z k) in *. set (R := inject_Z r) in *.
  set (U := inject_Z u) in *.
  assert (He : 0 < ulp_half /\ ulp_half < 1) by (split; reflexivity).
  unfold float_timestamp, mul, div, of_int. fold K R U.
  rewrite (round_exact U Ru).
  destruct (round_error K HK) as [A1 A2].
  destruct (round_error R (Qlt_le_weak _ _ HR)) as [R1 R2].
  set (A := round K) in *. set (B := round R) in *.
  assert (HRlo : 0 < R * (1 - ulp_half)) by (apply Qmult_lt_0_compat; lra).
  assert (HB : 0 < B) by lra.
  assert (HA : 0 <= A) by (apply round_nonneg; assumption).
  assert (HKlo : 0 <= K * (1 - ulp_half)) by (apply Qmult_le_0_compat; lra).
  assert (Hi1 : / B <= / (R * (1 - ulp_half)))
    by (apply Qinv_le_contravar; assumption).
  assert (Hi2 : / (R * (1 + ulp_half)) <= / B).
  { apply Qinv_le_contravar; [assumption|]. assumption. }
  assert (HiB : 0 < / B) by (apply Qinv_lt_0_compat; assumption).
  assert (Hi0 : 0 <= / (R * (1 + ulp_half))).
  { apply Qinv_le_0_compat. apply Qmult_le_0_compat; lra. }
  assert (HD : 0 <= A / B) by (unfold Qdiv; apply Qmult_le_0_compat; lra).
  assert (HDu : A / B <= K * (1 + ulp_half) * / (R * (1 - ulp_half))).
  { unfold Qdiv. apply Qmult_le_compat_nonneg; split; lra. }
  assert (HDl : K * (1 - ulp_half) * / (R * (1 + ulp_half)) <= A / B).
  { unfold Qdiv. apply Qmult_le_compat_nonneg; split; lra. }
  destruct (round_error (A / B) HD) as [D1 D2].
  set (D := round (A / B)) in *.
  assert (HDr : 0 <= D) by (apply round_nonneg; assumption).
  assert (HP : 0 <= D * U) by (apply Qmult_le_0_compat; assumption).
  destruct (round_error (D * U) HP) as [P1 P2].
  set (Du := K * (1 + ulp_half) * / (R * (1 - ulp_half))) in *.
  set (Dl := K * (1 - ulp_half) * / (R * (1 + ulp_half))) in *.
  assert (HDl0 : 0 <= Dl) by (apply Qmult_le_0_compat; assumption).
  assert (Hx : 0 <= x).
  { unfold x. apply Qmult_le_0_compat; [|assumption].
    unfold Qdiv. apply Qmult_le_0_compat; [assumption|].
    apply Qinv_le_0_compat. lra. }
  split.
  - apply Qle_trans with (Dl * (1 - ulp_half) * U * (1 - ulp_half)).
    + setoid_replace (Dl * (1 - ulp_half) * U * (1 - ulp_half))
        with (x * ((1 - ulp_half) * (1 - ulp_half) * (1 - ulp_half)
                   / (1 + ulp_half)))
        by (unfold Dl, x; field; split; lra).
      apply Qmult_le_compat_nonneg; split; try lra.
      * discriminate.
      * discriminate.
    + apply Qle_trans with (D * U * (1 - ulp_half)); [|exact P1].
      apply Qmult_le_compat_r; [|lra].
      apply Qmult_le_compat_r; [|assumption].
      apply Qle_trans with (A / B * (1 - ulp_half)); [|exact D1].
      apply Qmult_le_compat_r; lra.
  - apply Qle_trans with (Du * (1 + ulp_half) * U * (1 + ulp_half)).
    + apply Qle_trans with (D * U * (1 + ulp_half)); [exact P2|].
      apply Qmult_le_compat_r; [|lra].
      apply Qmult_le_compat_r; [|assumption].
      apply Qle_trans with (A / B * (1 + ulp_half)); [exact D2|].
      apply Qmult_le_compat_r; lra.
    + setoid_replace (Du * (1 + ulp_half) * U * (1 + ulp_half))
        with (x * ((1 + ulp_half) * (1 + ulp_half) * (1 + ulp_half)
                   / (1 - ulp_half)))
        by (unfold Du, x; field; split; lra).
      apply Qmult_le_compat_nonneg; split; try lra.
      * discriminate.
      * discriminate.
Qed.


(** A defined timestamp is within that relative error, and less than
    one, of the exact value. *)
Lemma timestamp_error (k r u t : Z) :
  (0 <= k)%Z -> (0 < r)%Z -> (0 <= u)%Z ->
  representable (inject_Z u) ->
  timestamp k r u = Some t ->
  let x := inject_Z k / inject_Z r * inject_Z u in
  x * (1 - (4 # 1) * ulp_half) < inject_Z t + 1 /\
  inject_Z t <= x * (1 + (5 # 1) * ulp_half).
Proof.
  intros Hk Hr Hu Ru Ht x.
  rewrite timestamp_value in Ht by assumption.
  destruct (Qfloor (float_timestamp k r u) <? 2 ^ 64)%Z; [|discriminate].
  injection Ht as <-.
  destruct (float_timestamp_error k r u Hk Hr Hu Ru) as [H1 H2]. fold x in H1, H2.
  pose proof (Qfloor_le (float_timestamp k r u)) as F1.
  pose proof (Qlt_floor (float_timestamp k r u)) as F2.
  rewrite inject_Z_plus in F2. change (inject_Z 1) with 1 in F2.
  split; lra.
Qed.

(** The timestamp is defined as soon as the exact value, with that
    margin, is a value of [uint64_t]. *)
Lemma timestamp_defined (k r u : Z) :
  (0 <= k)%Z -> (0 < r)%Z -> (0 <= u)%Z ->
  representable (inject_Z u) ->
  inject_Z k / inject_Z r * inject_Z u * (1 + (5 # 1) * ulp_half)
    < inject_Z (2 ^ 64) ->
  exists t, timestamp k r u = Some t.
Proof.
  intros Hk Hr Hu Ru Hx.
  rewrite timestamp_value by assumption.
  destruct (float_timestamp_error k r u Hk Hr Hu Ru) as [_ H2].
  pose proof (Qfloor_le (float_timestamp k r u)) as F1.
  assert (H : inject_Z (Qfloor (float_timestamp k r u)) < inject_Z (2 ^ 64))
    by lra.
  rewrite <- Zlt_Qlt in H.
  destruct (Z.ltb_spec (Qfloor (float_timestamp k r u)) (2 ^ 64)); [eauto | lia].
Qed.

Lemma timestamp_needs_rate (k r u t : Z) : timestamp k r u = Some t -> r <> 0%Z.
Proof.
  unfold timestamp. destruct (Z.eqb_spec r 0); [discriminate | auto].
Qed.

Lemma timestamp_rate_zero (k u : Z) : timestamp k 0 u = None.
Proof. reflexivity. Qed.

End TimestampFacts.

(** ** Time scale *)

(** C9. When the collaborator reports the rate [r], [init] keeps it and
    selects the period constant with strict thresholds: 10^9 above 1 MHz,
    10^6 above 1 kHz and up to 1 MHz, 10^3 up to 1 kHz; at exactly
    1 000 000 the constant is 10^6. *)
Theorem init_period_thresholds (h : host) (sdi : sr_dev_inst) (r : Z)
    (ctx : context) :
  conf_samplerate sdi = Some r ->
  init h sdi = (SR_OK, ctx) ->
  samplerate ctx = r /\
  period ctx = select_period r /\
  (1000000 < r -> period ctx = 10 ^ 9) /\
  (1000 < r <= 1000000 -> period ctx = 10 ^ 6) /\
  (r <= 1000 -> period ctx = 10 ^ 3) /\
  (r = 1000000 -> period ctx = 10 ^ 6).
Proof.
  intros Hr Hinit. unfold init in Hinit.
  destruct (build_registry (probes sdi)) as [registry n].
  destruct (len registry >? 94); [discriminate|].
  rewrite Hr in Hinit. injection Hinit as <-. cbn [samplerate period].
  unfold select_period, SR_MHZ, SR_KHZ, SR_GHZ.
  repeat split; intros;
    repeat match goal with
           | |- context [?a >? ?b] => destruct (Z.gtb_spec a b)
           end; try reflexivity; lia.
Qed.

Lemma init_period_thresholds_witness :
  period (snd (init demo_host sdi_1mhz)) = 10 ^ 6.
Proof.
  refine (proj2 (proj2 (proj2 (proj2 (proj2
            (init_period_thresholds demo_host sdi_1mhz 1000000
               (snd (init demo_host sdi_1mhz)) eq_refl eq_refl))))) eq_refl).
Defined.

(** ** ProbeRegistry *)

Lemma len_app {A : Type} (l1 l2 : list A) : len (l1 ++ l2) = len l1 + len l2.
Proof. unfold len. rewrite length_app. lia. Qed.

Lemma len_nonneg {A : Type} (l : list A) : 0 <= len l.
Proof. unfold len. lia. Qed.

Lemma append_index_length (reg : list probe_context) (k : nat) (b : bit_index) :
  len (append_index reg k b) = len reg.
Proof.
  revert k. induction reg as [|ctx rest IH]; intros k; [reflexivity|].
  destruct k; cbn [append_index].
  - reflexivity.
  - unfold len in *. cbn [List.length]. specialize (IH k). lia.
Qed.

(** A turn of the loop adds at most one logical probe. *)
Lemma init_probe_length (st : list probe_context * Z) (p : sr_probe) :
  len (fst st) <= len (fst (init_probe st p)) <= len (fst st) + 1.
Proof.
  destruct st as [reg n]. unfold init_probe.
  destruct (enabled p); cbn [negb fst]; [|lia].
  destruct (get_array_str (name p)) as [[base idx]|].
  - destruct (probe_find reg base); cbn [fst].
    + rewrite append_index_length. lia.
    + rewrite len_app. change (len [_]) with 1. lia.
  - cbn [fst]. rewrite len_app. change (len [_]) with 1. lia.
Qed.

Lemma registry_length_le (ps : list sr_probe) (st : list probe_context * Z) :
  len (fst (fold_left init_probe ps st)) <= len (fst st) + len ps.
Proof.
  revert st. induction ps as [|p ps IH]; intros st; cbn [fold_left].
  - change (len []) with 0. lia.
  - specialize (IH (init_probe st p)).
    pose proof (init_probe_length st p).
    unfold len in *. cbn [List.length]. lia.
Qed.

Lemma registry_length_scalars (ps : list sr_probe)
    (st : list probe_context * Z) :
  Forall scalar_enabled ps ->
  len (fst (fold_left init_probe ps st)) = len (fst st) + len ps.
Proof.
  intros H. revert st.
  induction H as [|p ps [He Hn] _ IH]; intros st; cbn [fold_left].
  - change (len []) with 0. lia.
  - rewrite IH. destruct st as [reg n]. unfold init_probe.
    rewrite He, Hn. cbn [negb fst]. rewrite len_app.
    unfold len. cbn [List.length]. lia.
Qed.

(** Without vector names the registry is the list of the enabled
    probes, each at the offset of its position. *)
Lemma registry_of_scalars (ps : list sr_probe) :
  forall (reg : list probe_context) (n : Z),
    Forall scalar_enabled ps ->
    fst (fold_left init_probe ps (reg, n)) = reg ++ scalar_registry (len reg) ps.
Proof.
  induction ps as [|p ps IH]; intros reg n H; cbn [fold_left scalar_registry].
  - cbn [fst]. now rewrite app_nil_r.
  - inversion H as [|? ? [He Hn] Hps]; subst.
    unfold init_probe at 2. rewrite He, Hn. cbn [negb].
    rewrite IH by assumption. rewrite <- app_assoc, len_app.
    change (len [_]) with 1. cbn [app]. do 2 f_equal.
    unfold scalar_entry. f_equal. f_equal. lia.
Qed.

Lemma logical_probe_count_le (ps : list sr_probe) :
  logical_probe_count ps <= len ps.
Proof.
  unfold logical_probe_count, build_registry.
  pose proof (registry_length_le ps ([], 0)) as H.
  now cbn [fst] in H.
Qed.

Lemma init_code (h : host) (sdi : sr_dev_inst) :
  fst (init h sdi) =
  if logical_probe_count (probes sdi) >? 94 then SR_ERR else SR_OK.
Proof.
  unfold init, logical_probe_count.
  destruct (build_registry (probes sdi)) as [reg n]. cbn [fst].
  now destruct (len reg >? 94).
Qed.

(** C7, as the code has it. [init] succeeds for every probe list of at
    most 94 entries. It returns the configuration error exactly when the
    number of logical probes (enabled entries after vector grouping)
    exceeds 94, and then leaves no header to hand out; a list of 95
    entries fails when these are 95 enabled scalar probes. *)
Theorem init_probe_limit (h : host) (sdi : sr_dev_inst) :
  (len (probes sdi) <= 94 -> fst (init h sdi) = SR_OK) /\
  (fst (init h sdi) = SR_OK <-> logical_probe_count (probes sdi) <= 94) /\
  (fst (init h sdi) = SR_ERR <-> 94 < logical_probe_count (probes sdi)) /\
  (fst (init h sdi) = SR_ERR -> header (snd (init h sdi)) = None) /\
  (Forall scalar_enabled (probes sdi) -> len (probes sdi) = 95 ->
   fst (init h sdi) = SR_ERR).
Proof.
  pose proof (logical_probe_count_le (probes sdi)) as Hle.
  rewrite init_code.
  destruct (Z.gtb_spec (logical_probe_count (probes sdi)) 94) as [Hgt|Hgt].
  - repeat split; intros; try lia; try discriminate.
    unfold init. unfold logical_probe_count in Hgt.
    destruct (build_registry (probes sdi)) as [reg n]. cbn [fst] in Hgt.
    destruct (Z.gtb_spec (len reg) 94); [reflexivity | lia].
  - repeat split; intros; try lia; try discriminate.
    exfalso. unfold logical_probe_count, build_registry in Hgt.
    rewrite registry_length_scalars in Hgt by assumption.
    cbn [fst] in Hgt. change (len []) with 0 in Hgt. lia.
Qed.

Lemma scalar_probes_scalar (n : nat) :
  n = 95%nat -> Forall scalar_enabled (scalar_probes n).
Proof.
  intros ->. unfold scalar_probes. cbn [seq map].
  repeat constructor.
Qed.

Lemma init_probe_limit_witness :
  fst (init demo_host sdi_1mhz) = SR_OK /\
  fst (init demo_host sdi_scalar95) = SR_ERR.
Proof.
  split.
  - apply (proj1 (init_probe_limit demo_host sdi_1mhz)).
    vm_compute. discriminate.
  - apply (proj2 (proj2 (proj2 (proj2 (init_probe_limit demo_host sdi_scalar95))))).
    + apply scalar_probes_scalar. reflexivity.
    + reflexivity.
Defined.

(** C7, the sentence of the specification. A probe list of 95 entries,
    the bits [d<0>] to [d<94>] of one vector, is accepted by [init]: it
    holds one logical probe. *)
Lemma init_accepts_95_entries :
  len (probes sdi_vector95) = 95 /\
  fst (init demo_host sdi_vector95) = SR_OK /\
  logical_probe_count (probes sdi_vector95) = 1.
Proof. repeat split; vm_compute; reflexivity. Qed.

(** C6. With the probe list [a<0>, b, a<1>, c], all enabled, the bit
    [a<1>] (entry 2) and the probe [c] (entry 3) both get the offset 2:
    [init] stores the number of logical probes registered so far, not the
    index of the entry among the enabled probes. *)
Theorem init_interleaved_offsets :
  probeindices (snd (init demo_host sdi_interleaved)) =
  [ {| indices := [ {| bit := 1; sample := 2 |}; {| bit := 0; sample := 0 |} ];
       symbol := "!"; ctx_name := "a"; is_vector := true |};
    {| indices := [ {| bit := 0; sample := 1 |} ];
       symbol := "034"%char; ctx_name := "b"; is_vector := false |};
    {| indices := [ {| bit := 0; sample := 2 |} ];
       symbol := "#"; ctx_name := "c"; is_vector := false |} ].
Proof. vm_compute. reflexivity. Qed.

(** ** DeltaEncoder *)

Ltac bind_inv H :=
  repeat match type of H with
         | bind ?x _ = Some _ =>
             let E := fresh "E" in
             destruct x eqn:E; cbn [bind] in H; [|discriminate H]
         end.

Lemma get_bit_binary (buf : list byte) (idx v : Z) :
  get_bit buf idx = Some v -> v = 0 \/ v = 1.
Proof.
  unfold get_bit. destruct ((idx <? 0) || (31 <=? idx)); [discriminate|].
  destruct (nth_error buf _); [|discriminate].
  destruct (_ =? 0); intros [= <-]; auto.
Qed.

Lemma stamp_not_marker (t : Z) : ~ is_marker ("#" ++ decimal t ++ LF).
Proof. intros [H|H]; discriminate H. Qed.

(** A rendered run of bits starts with ['x'], ['0'] or ['1']. *)
Lemma render_bits_head (cur : list byte) (last_bit : Z)
    (bidx : bit_index) (rest : list bit_index) (s : string) :
  render_bits cur last_bit (bidx :: rest) = Some s ->
  exists c s', s = String c s' /\ (c = "x" \/ c = "0" \/ c = "1")%char.
Proof.
  cbn [render_bits]. intros H. bind_inv H. injection H as <-.
  unfold fill_x.
  destruct (Z.to_nat (last_bit - 1 - bit bidx)) as [|n]; cbn.
  - destruct (get_bit_binary _ _ _ E) as [-> | ->];
      [change (decimal 0) with "0" | change (decimal 1) with "1"];
      cbn; do 2 eexists; (split; [reflexivity | auto]).
  - do 2 eexists; (split; [reflexivity | auto]).
Qed.

Lemma value_line_not_marker (cur : list byte) (probe_ctx : probe_context)
    (line : string) :
  value_line cur probe_ctx = Some line -> ~ is_marker line.
Proof.
  unfold value_line. intros H. bind_inv H. injection H as <-.
  destruct (is_vector probe_ctx).
  - intros [H|H]; discriminate H.
  - destruct (indices probe_ctx) as [|bidx rest].
    + injection E as <-.
      intros [H|H]; vm_compute in H; injection H as _ H; discriminate H.
    + destruct (render_bits_head _ _ _ _ _ E) as (c & s' & -> & Hc).
      intros [H|H]; cbn in H; injection H as Hh _; subst c;
        destruct Hc as [Hc|[Hc|Hc]]; discriminate Hc.
Qed.

Lemma probe_output_lines (first : bool) (cur prev : list byte)
    (probe_ctx : probe_context) (ls : list string) :
  probe_output first cur prev probe_ctx = Some ls ->
  Forall (fun l => value_line cur probe_ctx = Some l) ls.
Proof.
  unfold probe_output. intros H. bind_inv H.
  destruct (negb first && negb (z =? len (indices probe_ctx))).
  - injection H as <-. constructor.
  - bind_inv H. injection H as <-. repeat constructor.
Qed.

Lemma probe_output_first (cur prev : list byte) (probe_ctx : probe_context)
    (ls : list string) :
  probe_output true cur prev probe_ctx = Some ls ->
  exists l, ls = [l] /\ value_line cur probe_ctx = Some l.
Proof.
  unfold probe_output. intros H. bind_inv H. cbn [negb andb] in H.
  bind_inv H. injection H as <-. eauto.
Qed.

(** On the first sample every probe writes its line. *)
Lemma probes_output_first (cur prev : list byte)
    (registry : list probe_context) (ls : list string) :
  probes_output true cur prev registry = Some ls ->
  Forall2 (fun probe_ctx l => value_line cur probe_ctx = Some l) registry ls.
Proof.
  revert ls. induction registry as [|pc rest IH]; intros ls H; cbn in H.
  - injection H as <-. constructor.
  - bind_inv H. injection H as <-.
    destruct (probe_output_first _ _ _ _ E) as (l' & -> & Hl).
    constructor; [assumption | now apply IH].
Qed.

Lemma probes_output_lines (first : bool) (cur prev : list byte)
    (registry : list probe_context) (ls : list string) :
  probes_output first cur prev registry = Some ls ->
  Forall (fun l => exists probe_ctx,
              In probe_ctx registry /\ value_line cur probe_ctx = Some l) ls.
Proof.
  revert ls. induction registry as [|pc rest IH]; intros ls H; cbn in H.
  - injection H as <-. constructor.
  - bind_inv H. injection H as <-. apply Forall_app. split.
    + eapply Forall_impl; [|eapply probe_output_lines; eassumption].
      cbn. intros a Ha. exists pc. auto.
    + eapply Forall_impl; [|apply IH; reflexivity].
      cbn. intros a (pc' & Hin & Ha). exists pc'. auto.
Qed.

Lemma receive_sample_first (ctx ctx' : context) (cur : list byte)
    (first' : bool) (out : list string) :
  receive_sample ctx true cur = Some (ctx', first', out) ->
  first' = false /\
  same_session ctx ctx' /\
  samplecount ctx' = wrap 64 (samplecount ctx + 1) /\
  exists t lines,
    timestamp (samplecount ctx') (samplerate ctx) (period ctx) = Some t /\
    out = ("#" ++ decimal t ++ LF)%string :: DUMPVARS :: lines ++ [DUMPEND] /\
    Forall2 (fun probe_ctx l => value_line cur probe_ctx = Some l)
      (probeindices ctx) lines.
Proof.
  unfold receive_sample. cbn [bind negb andb]. intros H.
  cbn [samplecount samplerate period set_samplecount prevsample probeindices
       unitsize] in H.
  bind_inv H. injection H as <- <- <-.
  repeat split.
  exists z, l. repeat split; [assumption|].
  eapply probes_output_first; eassumption.
Qed.

Lemma receive_sample_later (ctx ctx' : context) (cur : list byte)
    (first' : bool) (out : list string) :
  receive_sample ctx false cur = Some (ctx', first', out) ->
  first' = false /\
  same_session ctx ctx' /\
  samplecount ctx' = wrap 64 (samplecount ctx + 1) /\
  Forall (fun l => ~ is_marker l) out.
Proof.
  unfold receive_sample. intros H.
  cbn [samplecount samplerate period set_samplecount prevsample probeindices
       unitsize] in H.
  bind_inv H. destruct b; cbn [negb andb] in H.
  - injection H as <- <- <-. repeat split. constructor.
  - bind_inv H. injection H as <- <- <-. repeat split.
    constructor; [apply stamp_not_marker|].
    cbn [app]. rewrite app_nil_r.
    eapply Forall_impl; [|eapply probes_output_lines; eassumption].
    cbn. intros a (pc & _ & Ha). eapply value_line_not_marker; eassumption.
Qed.

Lemma same_session_refl (ctx : context) : same_session ctx ctx.
Proof. repeat split. Qed.

Lemma same_session_trans (a b c : context) :
  same_session a b -> same_session b c -> same_session a c.
Proof.
  unfold same_session. intros (?&?&?&?&?) (?&?&?&?&?).
  repeat split; congruence.
Qed.

Section LoopFacts.

Variable length_bits : Z.


Hypothesis length_bits_nonneg : 0 <= length_bits.




End LoopFacts.

(** *** Progress: on well-formed input the code stays defined *)

Lemma mem_read_ok (buf : list byte) (n : Z) :
  n <= len buf -> mem_read buf n = Some (firstn (Z.to_nat n) buf).
Proof.
  intros H. unfold mem_read. now replace (n <=? len buf) with true by lia.
Qed.

Lemma get_bit_ok (n : Z) (buf : list byte) (bidx : bit_index) :
  index_ok n bidx = true -> n <= len buf ->
  exists v, get_bit buf (sample bidx) = Some v.
Proof.
  unfold index_ok, get_bit, len. intros H Hn.
  apply andb_prop in H as [H H3]. apply andb_prop in H as [H1 H2].
  replace ((sample bidx <? 0) || (31 <=? sample bidx)) with false by lia.
  rewrite Z.quot_div_nonneg by lia.
  destruct (nth_error buf (Z.to_nat (sample bidx / 8))) eqn:E; [eauto|].
  apply nth_error_None in E.
  assert (0 <= sample bidx / 8) by (apply Z.div_pos; lia). lia.
Qed.

Section Progress.

Variables (n : Z) (cur prev : list byte).
Hypothesis cur_long : n <= len cur.
Hypothesis prev_long : n <= len prev.

Lemma first_change_ok (idx : list bit_index) (s : Z) :
  forallb (index_ok n) idx = true ->
  exists s', first_change cur prev idx s = Some s'.
Proof.
  revert s. induction idx as [|b rest IH]; intros s H; cbn in *.
  - eauto.
  - apply andb_prop in H as [Hb Hr].
    destruct (get_bit_ok _ _ _ Hb cur_long) as [v ->].
    destruct (get_bit_ok _ _ _ Hb prev_long) as [w ->].
    cbn [bind]. destruct (negb (w =? v)); eauto.
Qed.

Lemma render_bits_ok (last_bit : Z) (idx : list bit_index) :
  forallb (index_ok n) idx = true ->
  exists s, render_bits cur last_bit idx = Some s.
Proof.
  induction idx as [|b rest IH]; intros H; cbn in *.
  - eauto.
  - apply andb_prop in H as [Hb Hr].
    destruct (get_bit_ok _ _ _ Hb cur_long) as [v ->].
    destruct (IH Hr) as [s ->]. cbn [bind]. eauto.
Qed.

Lemma probe_output_ok (first : bool) (probe_ctx : probe_context) :
  forallb (index_ok n) (indices probe_ctx) = true ->
  exists ls, probe_output first cur prev probe_ctx = Some ls.
Proof.
  intros H. unfold probe_output, value_line.
  destruct (first_change_ok _ 0 H) as [s ->]. cbn [bind].
  destruct (negb first && _); [eauto|].
  destruct (render_bits_ok 0 _ H) as [bits ->]. cbn [bind]. eauto.
Qed.

Lemma probes_output_ok (first : bool) (registry : list probe_context) :
  forallb (fun probe_ctx => forallb (index_ok n) (indices probe_ctx))
    registry = true ->
  exists ls, probes_output first cur prev registry = Some ls.
Proof.
  induction registry as [|pc rest IH]; intros H; cbn in *.
  - eauto.
  - apply andb_prop in H as [Hp Hr].
    destruct (probe_output_ok first _ Hp) as [l ->].
    destruct (IH Hr) as [ls ->]. cbn [bind]. eauto.
Qed.

End Progress.

Lemma context_ok_inv (ctx : context) :
  context_ok ctx = true ->
  len (prevsample ctx) = unitsize ctx /\
  forallb (fun probe_ctx => forallb (index_ok (unitsize ctx))
                              (indices probe_ctx))
    (probeindices ctx) = true /\
  0 < samplerate ctx /\ 0 <= period ctx /\ 0 <= samplecount ctx.
Proof.
  unfold context_ok. intros H.
  repeat (apply andb_prop in H as [H ?]).
  repeat split; try lia. assumption.
Qed.

Lemma context_ok_intro (ctx : context) :
  len (prevsample ctx) = unitsize ctx ->
  forallb (fun probe_ctx => forallb (index_ok (unitsize ctx))
                              (indices probe_ctx))
    (probeindices ctx) = true ->
  0 < samplerate ctx -> 0 <= period ctx -> 0 <= samplecount ctx ->
  context_ok ctx = true.
Proof.
  intros H1 H2 H3 H4 H5. unfold context_ok. rewrite H2.
  repeat (apply andb_true_intro; split); try reflexivity; lia.
Qed.

Lemma memcpy_ok (dst src : list byte) (n : Z) :
  len dst = n -> n <= len src ->
  exists b, memcpy dst src n = Some b /\ len b = n.
Proof.
  intros Hd Hs. unfold memcpy.
  rewrite (mem_read_ok dst), (mem_read_ok src) by lia. cbn [bind].
  eexists. split; [reflexivity|].
  unfold len in *. rewrite length_app, length_firstn, length_skipn. lia.
Qed.

(** One turn of the sample loop on a well-formed context. *)
Lemma receive_sample_progress (ctx : context) (first : bool)
    (cur : list byte) (t : Z) :
  context_ok ctx = true ->
  unitsize ctx <= len cur ->
  samplecount ctx + 1 < 2 ^ 64 ->
  timestamp (samplecount ctx + 1) (samplerate ctx) (period ctx) = Some t ->
  exists ctx' out,
    receive_sample ctx first cur = Some (ctx', false, out) /\
    context_ok ctx' = true /\
    samplecount ctx' = samplecount ctx + 1 /\
    same_session ctx ctx'.
Proof.
  intros Hok Hcur Hcnt Ht.
  destruct (context_ok_inv _ Hok) as (Hprev & Hidx & Hr & Hp & Hc).
  unfold receive_sample.
  cbn [samplecount samplerate period set_samplecount prevsample probeindices
       unitsize].
  rewrite (wrap_small 64) by lia.
  assert (Hsame : exists same,
             (if first then Some false
              else memcmp_eq (prevsample ctx) cur (unitsize ctx)) = Some same
             /\ (first = true -> same = false)).
  { destruct first; [eauto|]. unfold memcmp_eq.
    rewrite (mem_read_ok (prevsample ctx)), (mem_read_ok cur) by lia.
    cbn [bind]. eexists. split; [reflexivity | discriminate]. }
  destruct Hsame as (same & -> & Hsame). cbn [bind].
  destruct (negb first && same) eqn:Eskip.
  - apply andb_prop in Eskip as [Hf _].
    destruct first; [discriminate|].
    do 2 eexists. split; [reflexivity|]. repeat split.
    apply context_ok_intro; cbn; try assumption; lia.
  - rewrite Ht. cbn [bind].
    destruct (probes_output_ok (unitsize ctx) cur (prevsample ctx)
                ltac:(lia) ltac:(lia) first _ Hidx) as [lines ->].
    cbn [bind].
    destruct (memcpy_ok (prevsample ctx) cur (unitsize ctx) Hprev Hcur)
      as (b & -> & Hb).
    cbn [bind]. do 2 eexists. split; [reflexivity|]. repeat split.
    apply context_ok_intro; cbn; try assumption; lia.
Qed.

Lemma frame_ok_inv (ctx : context) (logic : sr_datafeed_logic) :
  frame_ok ctx logic = true ->
  0 < logic_unitsize logic <= logic_length logic /\
  logic_length logic < 2 ^ 32 /\
  unitsize ctx <= logic_unitsize logic.
Proof.
  unfold frame_ok. intros H. repeat (apply andb_prop in H as [H ?]). lia.
Qed.

Lemma whole_samples_bounds (logic : sr_datafeed_logic) :
  0 < logic_unitsize logic ->
  whole_samples logic * logic_unitsize logic <= logic_length logic
    < (whole_samples logic + 1) * logic_unitsize logic.
Proof.
  intros H. unfold whole_samples.
  pose proof (Z.mul_div_le (logic_length logic) (logic_unitsize logic) H).
  pose proof (Z.mul_succ_div_gt (logic_length logic) (logic_unitsize logic) H).
  lia.
Qed.

Lemma timestamp_defined_below (k1 k2 r u : Z) :
  0 <= k1 <= k2 -> 0 < r -> 0 <= u ->
  timestamp k2 r u <> None -> exists t, timestamp k1 r u = Some t.
Proof.
  intros Hk Hr Hu H. destruct (timestamp k2 r u) as [t2|] eqn:E; [|contradiction].
  destruct (TimestampFacts.timestamp_mono k1 k2 r u t2 Hk Hr Hu E) as (t1 & H1 & _).
  eauto.
Qed.

Section LoopProgress.

Variable length_bits : Z.
Hypothesis length_bits_wide : 32 <= length_bits.

Variable logic : sr_datafeed_logic.

(** With [m] whole samples left in the packet, the loop runs [m] more
    turns and leaves. *)
Lemma receive_loop_progress (m : nat) :
  forall (fuel : nat) (ctx : context) (first : bool) (i : Z)
         (out : list string),
    context_ok ctx = true ->
    frame_ok ctx logic = true ->
    Z.of_nat m <= whole_samples logic ->
    i = (whole_samples logic - Z.of_nat m) * logic_unitsize logic ->
    (m < fuel)%nat ->
    samplecount ctx + Z.of_nat m < 2 ^ 64 ->
    timestamp (samplecount ctx + Z.of_nat m) (samplerate ctx) (period ctx)
      <> None ->
    exists ctx' out',
      receive_loop length_bits fuel logic ctx first i out = Done (ctx', out') /\
      context_ok ctx' = true /\
      samplecount ctx' = samplecount ctx + Z.of_nat m /\
      same_session ctx ctx'.
Proof.
  induction m as [|m IH]; intros fuel ctx first i out Hok Hf Hm Hi Hfuel Hcnt Ht;
    (destruct fuel as [|fuel]; [lia|]); cbn [receive_loop];
    destruct (frame_ok_inv _ _ Hf) as (Hus & Hlen & Hcu);
    pose proof (whole_samples_bounds logic ltac:(lia)) as Hws;
    assert (Hpow : 2 ^ 32 <= 2 ^ length_bits)
      by (apply Z.pow_le_mono_r; lia);
    rewrite (wrap_small length_bits) by lia.
  - replace (i <=? logic_length logic - logic_unitsize logic) with false
      by (subst i; change (Z.of_nat 0) with 0 in *; nia).
    do 2 eexists. split; [reflexivity|]. repeat split; [assumption | lia].
  - assert (Hi' : 0 <= i /\ i + logic_unitsize logic <= logic_length logic)
      by (subst i; nia).
    replace (i <=? logic_length logic - logic_unitsize logic) with true by lia.
    destruct (context_ok_inv _ Hok) as (_ & _ & Hr & Hp & Hc).
    destruct (timestamp_defined_below (samplecount ctx + 1)
                (samplecount ctx + Z.of_nat (S m)) _ _ ltac:(lia) Hr Hp Ht)
      as [t Ht1].
    destruct (receive_sample_progress ctx first
                (skipn (Z.to_nat i) (logic_data logic)) t Hok)
      as (ctx1 & out1 & -> & Hok1 & Hc1 & Hs1); [| lia | exact Ht1 |].
    { unfold len, logic_length, len in *. rewrite length_skipn. lia. }
    destruct Hs1 as (Hs1a & Hs1b & Hs1c & Hs1d & Hs1e).
    rewrite (wrap_small 32) by lia.
    destruct (IH fuel ctx1 false (i + logic_unitsize logic) (out ++ out1))
      as (ctx' & out' & -> & Hok' & Hc' & Hs'); try assumption; try lia.
    + unfold frame_ok in *. now rewrite Hs1e.
    + rewrite Hc1, Hs1d, Hs1c.
      now replace (samplecount ctx + 1 + Z.of_nat m)
        with (samplecount ctx + Z.of_nat (S m)) by lia.
    + do 2 eexists. split; [reflexivity|]. repeat split; try assumption.
      * lia.
      * destruct Hs' as (?&?&?&?&?). congruence.
      * destruct Hs' as (?&?&?&?&?). congruence.
      * destruct Hs' as (?&?&?&?&?). congruence.
      * destruct Hs' as (?&?&?&?&?). congruence.
      * destruct Hs' as (?&?&?&?&?). congruence.
Qed.

End LoopProgress.

Lemma total_samples_nonneg (ctx : context) (packets : list sr_datafeed_packet) :
  forallb (packet_ok ctx) packets = true -> 0 <= total_samples packets.
Proof.
  induction packets as [|p ps IH]; cbn [forallb total_samples fold_right];
    intros H; [lia|].
  apply andb_prop in H as [Hp Hps]. specialize (IH Hps).
  fold (total_samples ps).
  destruct p as [logic|]; cbn [packet_samples packet_ok] in *; [|lia].
  destruct (frame_ok_inv _ _ Hp) as (Hus & _).
  assert (0 <= whole_samples logic) by (apply Z.div_pos; lia). lia.
Qed.

Lemma packet_ok_unitsize (ctx ctx' : context) (packets : list sr_datafeed_packet) :
  unitsize ctx' = unitsize ctx ->
  forallb (packet_ok ctx') packets = forallb (packet_ok ctx) packets.
Proof.
  intros H. induction packets as [|p ps IH]; cbn [forallb]; [reflexivity|].
  rewrite IH. f_equal. destruct p as [logic|]; [|reflexivity].
  unfold packet_ok, frame_ok. now rewrite H.
Qed.

Section SessionProgress.

Variable length_bits : Z.
Hypothesis length_bits_wide : 32 <= length_bits.

(** A session of well-formed packets on a well-formed context returns,
    given fuel for the samples, and has counted every whole sample. *)
Lemma session_progress (fuel : nat) (packets : list sr_datafeed_packet) :
  forall ctx : context,
    context_ok ctx = true ->
    forallb (packet_ok ctx) packets = true ->
    total_samples packets < Z.of_nat fuel ->
    samplecount ctx + total_samples packets < 2 ^ 64 ->
    timestamp (samplecount ctx + total_samples packets)
      (samplerate ctx) (period ctx) <> None ->
    exists text ctx',
      session length_bits fuel (Some ctx) packets = Done (text, Some ctx') /\
      samplecount ctx' = samplecount ctx + total_samples packets.
Proof.
  induction packets as [|p ps IH]; intros ctx Hok Hps Hfuel Hcnt Ht.
  - cbn. do 2 eexists. split; [reflexivity | lia].
  - cbn [forallb] in Hps. apply andb_prop in Hps as [Hp Hps].
    pose proof (total_samples_nonneg _ _ Hps) as Hnn.
    cbn [total_samples fold_right] in *. fold (total_samples ps) in *.
    destruct (context_ok_inv _ Hok) as (_ & _ & Hr & Hu & Hc).
    destruct p as [logic|]; cbn [session receive packet_samples packet_ok] in *.
    + destruct (frame_ok_inv _ _ Hp) as (Hus & _).
      assert (Hws : 0 <= whole_samples logic) by (apply Z.div_pos; lia).
      assert (Hok0 : context_ok (set_header ctx None) = true) by exact Hok.
      assert (Ht0 : timestamp (samplecount ctx + whole_samples logic)
                      (samplerate ctx) (period ctx) <> None).
      { destruct (timestamp_defined_below
                    (samplecount ctx + whole_samples logic)
                    (samplecount ctx + (whole_samples logic + total_samples ps))
                    _ _ ltac:(lia) Hr Hu Ht) as [t ->]. discriminate. }
      destruct (receive_loop_progress length_bits length_bits_wide logic
                  (Z.to_nat (whole_samples logic)) fuel
                  (set_header ctx None)
                  (match header ctx with Some _ => true | None => false end)
                  0
                  (match header ctx with Some h => [h] | None => [] end)
                  Hok0 Hp)
        as (ctx1 & out1 & -> & Hok1 & Hc1 & Hs1).
      * lia.
      * rewrite Z2Nat.id by lia. ring.
      * lia.
      * rewrite Z2Nat.id by lia. cbn [set_header samplecount]. lia.
      * rewrite Z2Nat.id by lia. exact Ht0.
      * rewrite Z2Nat.id in Hc1 by lia.
        destruct Hs1 as (_ & _ & Hp1 & Hr1 & Hu1).
        cbn [set_header samplecount unitsize samplerate period] in *.
        destruct (IH ctx1 Hok1) as (text & ctx' & -> & Hc').
        -- now rewrite (packet_ok_unitsize ctx ctx1).
        -- lia.
        -- lia.
        -- rewrite Hc1, Hr1, Hp1.
           now rewrite <- Z.add_assoc.
        -- do 2 eexists. split; [reflexivity | lia].
    + destruct (IH ctx Hok Hps) as (text & ctx' & -> & Hc'); try lia.
      * exact Ht.
      * do 2 eexists. split; [reflexivity | lia].
Qed.

End SessionProgress.

(** ** The claims on the encoder *)

(** C1. The vector [name] is declared at the bits 3 and 0 only, and the
    sample holds 1 for bit 3 and 0 for bit 0. [receive] writes the line
    [b10 !]: no ['x'] stands for the bits 2 and 1, because [last_bit] is
    never set and both gap loops start below every bit. *)
Theorem vector_gap_line :
  exists hdr ctx',
    receive 64 2 (Some (snd (init demo_host sdi_gap))) (SR_DF_LOGIC frame_gap)
    = Done (SR_OK,
            Some [hdr; ("#1" ++ LF)%string; DUMPVARS;
                  ("b10 !" ++ LF)%string; DUMPEND],
            Some ctx') /\
    map (fun probe_ctx => map bit (indices probe_ctx))
      (probeindices (snd (init demo_host sdi_gap))) = [[3; 0]].
Proof.
  do 2 eexists. split; vm_compute; reflexivity.
Qed.

(** Whatever bits a probe declares at positions 0 and up, the rendered
    run holds the bit values only: with [last_bit] at 0 no gap is filled. *)
Lemma render_bits_no_gap (cur : list byte) (idx : list bit_index) (s : string) :
  Forall (fun bidx => -1 <= bit bidx) idx ->
  render_bits cur 0 idx = Some s ->
  exists vs,
    Forall2 (fun bidx v => get_bit cur (sample bidx) = Some v) idx vs /\
    s = fold_right (fun v t => (decimal v ++ t)%string) "" vs.
Proof.
  intros H. revert s. induction H as [|b rest Hb _ IH]; intros s Hs; cbn in Hs.
  - injection Hs as <-. exists []. split; [constructor | reflexivity].
  - bind_inv Hs. injection Hs as <-.
    destruct (IH _ eq_refl) as (vs & Hvs & ->).
    exists (z :: vs). split; [now constructor|].
    unfold fill_x. replace (Z.to_nat (-1 - bit b)) with O by lia.
    reflexivity.
Qed.

(** The line of a vector probe whose bits are all declared at positions
    0 and up: ['b'], the values of the declared bits, a space, the symbol.
    Nothing stands for an undeclared position. *)
Lemma value_line_vector_no_gap (cur : list byte) (probe_ctx : probe_context)
    (line : string) :
  is_vector probe_ctx = true ->
  Forall (fun bidx => -1 <= bit bidx) (indices probe_ctx) ->
  value_line cur probe_ctx = Some line ->
  exists vs,
    Forall2 (fun bidx v => get_bit cur (sample bidx) = Some v)
      (indices probe_ctx) vs /\
    line = ("b" ++ fold_right (fun v t => decimal v ++ t) "" vs
                ++ " " ++ chr (symbol probe_ctx) ++ LF)%string.
Proof.
  intros Hv Hb. unfold value_line. intros H. bind_inv H. injection H as <-.
  destruct (render_bits_no_gap _ _ _ Hb E) as (vs & Hvs & ->).
  exists vs. split; [assumption|]. rewrite Hv. reflexivity.
Qed.

(** C5. A logic packet of one byte with a sample width of two bytes,
    given to a session of nine probes: [logic->length - logic->unitsize]
    wraps to [2^64 - 1], the loop is entered and reads a sample that the
    buffer does not hold. The call never returns with zero samples. *)
Theorem short_frame_is_read (fuel : nat) :
  receive 64 (S fuel) (Some (snd (init demo_host sdi_nine)))
    (SR_DF_LOGIC frame_short) = Fault /\
  wrap 64 (logic_length frame_short - logic_unitsize frame_short) = 2 ^ 64 - 1 /\
  whole_samples frame_short = 0.
Proof.
  repeat split; vm_compute; reflexivity.
Qed.

(** A sample that is not the first of the session and whose bytes are
    those of the retained previous sample: the body of the loop counts it
    and writes nothing, and changes nothing else. *)
Lemma receive_sample_unchanged (ctx : context) (cur : list byte) :
  len (prevsample ctx) = unitsize ctx ->
  unitsize ctx <= len cur ->
  firstn (Z.to_nat (unitsize ctx)) cur = prevsample ctx ->
  receive_sample ctx false cur =
  Some (set_samplecount ctx (wrap 64 (samplecount ctx + 1)), false, []).
Proof.
  intros Hprev Hcur Heq. unfold receive_sample.
  cbn [set_samplecount prevsample unitsize]. unfold memcmp_eq.
  rewrite (mem_read_ok (prevsample ctx)), (mem_read_ok cur) by lia.
  cbn [bind]. rewrite Heq.
  rewrite firstn_all2 by (unfold len in Hprev; lia).
  unfold bytes_eqb.
  destruct (list_eq_dec Byte.byte_eq_dec (prevsample ctx) (prevsample ctx));
    [reflexivity | contradiction].
Qed.

Lemma wrap_wrap_add (w a b : Z) : wrap w (wrap w a + b) = wrap w (a + b).
Proof. unfold wrap. apply Zplus_mod_idemp_l. Qed.

Section Unchanged.

Variable length_bits : Z.
Hypothesis length_bits_wide : 32 <= length_bits.

Variable smp : list byte.
Variable total : nat.

Hypothesis smp_nonempty : 0 < len smp.
Hypothesis total_pos : (0 < total)%nat.
Hypothesis packet_small : Z.of_nat total * len smp < 2 ^ 32.

Lemma repeated_length (m : nat) :
  len (List.concat (repeat smp m)) = Z.of_nat m * len smp.
Proof.
  induction m as [|m IH]; [reflexivity|].
  cbn [repeat List.concat]. rewrite len_app, IH. lia.
Qed.

Lemma repeated_skip (m : nat) :
  (m <= total)%nat ->
  skipn (Z.to_nat (Z.of_nat (total - m) * len smp))
    (List.concat (repeat smp total))
  = List.concat (repeat smp m).
Proof.
  intros Hm.
  replace total with ((total - m) + m)%nat at 2 by lia.
  rewrite repeat_app, List.concat_app.
  rewrite skipn_app.
  assert (Hl : List.length (List.concat (repeat smp (total - m)))
               = Z.to_nat (Z.of_nat (total - m) * len smp)).
  { pose proof (repeated_length (total - m)) as H. unfold len in *. lia. }
  rewrite <- Hl, skipn_all, Nat.sub_diag. reflexivity.
Qed.

(** While [first] is clear, a run of samples that all equal the
    previous sample is counted and leaves the text as it is. *)
Lemma receive_loop_unchanged (m : nat) :
  forall (fuel : nat) (ctx : context) (out : list string),
    (m <= total)%nat ->
    (m < fuel)%nat ->
    prevsample ctx = smp ->
    unitsize ctx = len smp ->
    0 <= samplecount ctx < 2 ^ 64 ->
    receive_loop length_bits fuel (repeated_packet smp total) ctx false
      (Z.of_nat (total - m) * len smp) out
    = Done (set_samplecount ctx (wrap 64 (samplecount ctx + Z.of_nat m)), out).
Proof.
  assert (Hpow : 2 ^ 32 <= 2 ^ length_bits) by (apply Z.pow_le_mono_r; lia).
  pose proof (repeated_length total) as Hlen.
  induction m as [|m IH]; intros fuel ctx out Hm Hfuel Hprev Hus Hcnt;
    (destruct fuel as [|fuel]; [lia|]); cbn [receive_loop];
    unfold logic_length; cbn [logic_data logic_unitsize repeated_packet];
    rewrite Hlen; rewrite (wrap_small length_bits) by nia.
  - rewrite Nat.sub_0_r.
    replace (Z.of_nat total * len smp <=? _) with false by lia.
    rewrite Z.add_0_r, wrap_small by assumption.
    destruct ctx; reflexivity.
  - assert (Hi : Z.of_nat (total - S m) = Z.of_nat total - Z.of_nat m - 1) by lia.
    assert (Hi' : Z.of_nat (total - m) = Z.of_nat total - Z.of_nat m) by lia.
    assert (Hle : Z.of_nat (total - S m) * len smp
                  <= Z.of_nat total * len smp - len smp)
      by (rewrite Hi; nia).
    apply Z.leb_le in Hle. rewrite Hle.
    rewrite (repeated_skip (S m)) by assumption.
    rewrite (receive_sample_unchanged ctx).
    + rewrite (wrap_small 32) by nia.
      replace (Z.of_nat (total - S m) * len smp + len smp)
        with (Z.of_nat (total - m) * len smp) by (rewrite Hi, Hi'; ring).
      rewrite app_nil_r.
      rewrite IH; cbn [set_samplecount prevsample unitsize samplecount];
        try assumption; try lia.
      * rewrite wrap_wrap_add.
        replace (samplecount ctx + 1 + Z.of_nat m)
          with (samplecount ctx + Z.of_nat (S m)) by lia.
        reflexivity.
      * apply wrap_range. lia.
    + rewrite Hprev, Hus. reflexivity.
    + cbn [repeat List.concat]. rewrite len_app, Hus.
      pose proof (len_nonneg (List.concat (repeat smp m))). lia.
    + cbn [repeat List.concat]. rewrite Hus, Hprev.
      unfold len. rewrite Nat2Z.id. rewrite firstn_app, Nat.sub_diag.
      cbn [firstn]. rewrite firstn_all. apply app_nil_r.
Qed.

End Unchanged.

(** C8. A sample that is not the first of the session and whose bytes
    are those of the retained previous sample: the body of the loop
    writes nothing for it, neither timestamp nor value line, and the
    count of the context it leaves is the count before plus one (modulo
    2^64); the retained sample and the other fields are as before. So a
    packet received after the header is gone and made of repetitions of
    the previous sample yields an empty chunk, while the count grows by
    the number of its samples. *)
Theorem unchanged_sample_skipped :
  (forall (ctx : context) (cur : list byte),
      len (prevsample ctx) = unitsize ctx ->
      unitsize ctx <= len cur ->
      firstn (Z.to_nat (unitsize ctx)) cur = prevsample ctx ->
      exists ctx',
        receive_sample ctx false cur = Some (ctx', false, []) /\
        samplecount ctx' = wrap 64 (samplecount ctx + 1) /\
        prevsample ctx' = prevsample ctx /\
        probeindices ctx' = probeindices ctx /\
        header ctx' = header ctx /\
        period ctx' = period ctx /\
        samplerate ctx' = samplerate ctx /\
        unitsize ctx' = unitsize ctx)
  /\
  (forall (length_bits : Z) (fuel : nat) (ctx : context) (total : nat),
      32 <= length_bits ->
      header ctx = None ->
      unitsize ctx = len (prevsample ctx) ->
      0 < len (prevsample ctx) ->
      (0 < total)%nat ->
      Z.of_nat total * len (prevsample ctx) < 2 ^ 32 ->
      (total < fuel)%nat ->
      0 <= samplecount ctx < 2 ^ 64 ->
      exists ctx',
        receive length_bits fuel (Some ctx)
          (SR_DF_LOGIC (repeated_packet (prevsample ctx) total))
        = Done (SR_OK, Some [], Some ctx') /\
        samplecount ctx' = wrap 64 (samplecount ctx + Z.of_nat total) /\
        prevsample ctx' = prevsample ctx /\
        probeindices ctx' = probeindices ctx /\
        header ctx' = None /\
        period ctx' = period ctx /\
        samplerate ctx' = samplerate ctx /\
        unitsize ctx' = unitsize ctx).
Proof.
  split.
  - intros ctx cur Hprev Hcur Heq.
    exists (set_samplecount ctx (wrap 64 (samplecount ctx + 1))).
    split; [now apply receive_sample_unchanged|].
    cbn [set_samplecount samplecount prevsample probeindices header period
         samplerate unitsize].
    repeat split.
  - intros length_bits fuel ctx total Hw Hh Hus Hlen Htot Hsmall Hfuel Hcnt.
    exists (set_samplecount ctx (wrap 64 (samplecount ctx + Z.of_nat total))).
    split.
    + cbn [receive]. rewrite Hh.
      assert (Hctx : set_header ctx None = ctx)
        by (destruct ctx; cbn in Hh; subst; reflexivity).
      rewrite Hctx.
      pose proof (receive_loop_unchanged length_bits Hw (prevsample ctx) total
                    Hlen Htot Hsmall total fuel ctx [] (Nat.le_refl _) Hfuel
                    eq_refl Hus Hcnt) as H.
      rewrite Nat.sub_diag in H. cbn [Z.of_nat Z.mul] in H.
      rewrite H. reflexivity.
    + cbn [set_samplecount samplecount prevsample probeindices header period
           samplerate unitsize].
      repeat split. exact Hh.
Qed.

Lemma unchanged_sample_skipped_witness :
  (exists ctx',
      receive_sample ctx_late false [Byte.x00] = Some (ctx', false, []) /\
      samplecount ctx_late = 2 ^ 24 /\
      samplecount ctx' = 2 ^ 24 + 1)
  /\
  (exists ctx',
      receive 64 4 (Some ctx_late)
        (SR_DF_LOGIC (repeated_packet (prevsample ctx_late) 3))
      = Done (SR_OK, Some [], Some ctx') /\
      samplecount ctx' = 2 ^ 24 + 3).
Proof.
  split.
  - destruct (proj1 unchanged_sample_skipped ctx_late [Byte.x00])
      as (ctx' & Hr & Hc & _);
      [vm_compute; reflexivity | vm_compute; discriminate
       | vm_compute; reflexivity |].
    exists ctx'. split; [exact Hr|]. split; [reflexivity|].
    rewrite Hc. reflexivity.
  - destruct (proj2 unchanged_sample_skipped 64 4%nat ctx_late 3%nat)
      as (ctx' & Hr & Hc & _);
      [lia | vm_compute; reflexivity | vm_compute; reflexivity
       | vm_compute; reflexivity | lia | vm_compute; reflexivity | lia
       | vm_compute; split; first [reflexivity | discriminate] |].
    exists ctx'. split; [exact Hr|]. rewrite Hc. reflexivity.
Defined.

(** No timestamp can be written without a rate: a turn of the sample
    loop that stays defined at rate 0 has skipped its sample. *)
Lemma receive_sample_rate_zero (ctx ctx' : context) (first first' : bool)
    (cur : list byte) (out : list string) :
  samplerate ctx = 0 ->
  receive_sample ctx first cur = Some (ctx', first', out) ->
  out = [] /\ first = false.
Proof.
  intros Hr. unfold receive_sample.
  cbn [samplecount samplerate period set_samplecount prevsample probeindices
       unitsize].
  rewrite Hr. intros H. bind_inv H.
  destruct (negb first && b) eqn:Eb.
  - injection H as _ _ <-. destruct first; [discriminate | auto].
  - discriminate H.
Qed.

(** C10. When no sample rate is reported and the logical probes do not
    exceed 94, [init] succeeds with rate 0 and the period constant 10^3.
    From then on no timestamp has a defined value: [timestamp] is
    undefined at rate 0 for every count, a turn of the sample loop that
    would write one leaves defined behaviour, and in general a defined
    timestamp needs a rate above 0. *)
Theorem init_without_samplerate (h : host) (sdi : sr_dev_inst) :
  conf_samplerate sdi = None ->
  logical_probe_count (probes sdi) <= 94 ->
  exists ctx,
    init h sdi = (SR_OK, ctx) /\
    samplerate ctx = 0 /\
    period ctx = 10 ^ 3 /\
    (forall k, timestamp k (samplerate ctx) (period ctx) = None) /\
    (forall cur, receive_sample ctx true cur = None) /\
    (forall first cur ctx' first' out,
        receive_sample ctx first cur = Some (ctx', first', out) -> out = []) /\
    (forall k r u t, 0 <= r -> timestamp k r u = Some t -> 0 < r).
Proof.
  intros Hr Hn. unfold init, logical_probe_count in *.
  destruct (build_registry (probes sdi)) as [registry n]. cbn [fst] in Hn.
  replace (len registry >? 94) with false by lia.
  rewrite Hr. eexists. split; [reflexivity|].
  cbn [samplerate period]. repeat split.
  - intros first cur ctx' first' out H.
    eapply receive_sample_rate_zero; [|exact H]. reflexivity.
  - intros k r u t Hr0 Ht.
    pose proof (TimestampFacts.timestamp_needs_rate k r u t Ht). lia.
Qed.

Lemma init_without_samplerate_witness :
  exists ctx,
    init demo_host sdi_norate = (SR_OK, ctx) /\
    samplerate ctx = 0 /\ period ctx = 10 ^ 3.
Proof.
  destruct (init_without_samplerate demo_host sdi_norate eq_refl)
    as (ctx & H1 & H2 & H3 & _).
  - vm_compute. discriminate.
  - exists ctx. auto.
Defined.


(** A call for a logic packet that returns has run the body of the loop
    on the sample at the start of the buffer: the test [i <= ...] is
    unsigned and [i] starts at 0. No call for a logic packet processes
    zero samples. *)
Lemma receive_loop_enters (length_bits : Z) (fuel : nat)
    (logic : sr_datafeed_logic) (ctx : context) (first : bool)
    (out : list string) (r : context * list string) :
  0 <= length_bits ->
  receive_loop length_bits fuel logic ctx first 0 out = Done r ->
  exists ctx1 first1 lines,
    receive_sample ctx first (logic_data logic) = Some (ctx1, first1, lines) /\
    samplecount ctx1 = wrap 64 (samplecount ctx + 1).
Proof.
  intros Hlw. destruct fuel as [|fuel]; cbn [receive_loop]; [discriminate|].
  pose proof (wrap_range length_bits
                (logic_length logic - logic_unitsize logic) Hlw) as Hw.
  replace (0 <=? wrap length_bits _) with true by lia.
  cbn [Z.to_nat skipn].
  destruct (receive_sample ctx first (logic_data logic))
    as [[[ctx1 f1] l1]|] eqn:E; [|discriminate].
  intros _. exists ctx1, f1, l1. split; [reflexivity|].
  destruct first.
  - now destruct (receive_sample_first _ _ _ _ _ E) as (_ & _ & Hc & _).
  - now destruct (receive_sample_later _ _ _ _ _ E) as (_ & _ & Hc & _).
Qed.






(** ** The claim on the timestamp *)

(** The period constants are [float] values: converting the period does
    not round. *)
Lemma period_representable (r : Z) :
  Float32.representable (inject_Z (select_period r)).
Proof.
  unfold select_period, SR_KHZ, SR_MHZ, SR_GHZ.
  destruct (r >? 1 * 1000000); [|destruct (r >? 1 * 1000)].
  - exists 1953125, 9. split; reflexivity.
  - exists 1000000, 0. split; reflexivity.
  - exists 1000, 0. split; reflexivity.
Qed.

(** C3, the sentence of the specification. At the sample count
    [2^24 + 1], rate 1 and period constant 10^3 the timestamp of the code
    is 16777216000, and that is what a turn of the sample loop writes,
    while [floor (k / r * u)] is 16777217000: the count itself is rounded
    when it is converted to [float]. *)
Lemma timestamp_not_exact :
  timestamp (2 ^ 24 + 1) 1 (select_period 1) = Some 16777216000 /\
  exact_timestamp (2 ^ 24 + 1) 1 (select_period 1) = 16777217000 /\
  samplecount ctx_late + 1 = 2 ^ 24 + 1 /\
  samplerate ctx_late = 1 /\
  period ctx_late = select_period 1 /\
  exists ctx',
    receive_sample ctx_late false [Byte.x01]
    = Some (ctx', false, [("#16777216000" ++ LF)%string]).
Proof.
  repeat split; try (vm_compute; reflexivity).
  eexists. vm_compute. reflexivity.
Qed.

(** C3, as the code has it. A line that a turn of the sample loop
    writes first is the timestamp of the count after its increment,
    computed in single precision. That timestamp is [floor (k / r * u)]
    whenever the count, the rate, the period, the quotient and the product
    all are [float] values, so that no operation rounds; in general it
    lies within a relative error of five half units in the last place,
    and less than one, of [k / r * u]; and it does not decrease when the
    count grows. *)
Theorem timestamp_single_precision :
  (forall ctx first cur ctx' first' line rest,
      receive_sample ctx first cur = Some (ctx', first', line :: rest) ->
      samplecount ctx' = wrap 64 (samplecount ctx + 1) /\
      exists t,
        timestamp (samplecount ctx') (samplerate ctx') (period ctx') = Some t /\
        line = ("#" ++ decimal t ++ LF)%string)
  /\
  (forall k r u,
      0 <= k -> 0 < r -> 0 <= u ->
      Float32.representable (inject_Z k) ->
      Float32.representable (inject_Z r) ->
      Float32.representable (inject_Z u) ->
      Float32.representable (inject_Z k / inject_Z r)%Q ->
      Float32.representable (inject_Z k / inject_Z r * inject_Z u)%Q ->
      exact_timestamp k r u < 2 ^ 64 ->
      timestamp k r u = Some (exact_timestamp k r u))
  /\
  (forall k r u t,
      0 <= k -> 0 < r -> 0 <= u ->
      Float32.representable (inject_Z u) ->
      timestamp k r u = Some t ->
      (inject_Z k / inject_Z r * inject_Z u
         * (1 - (4 # 1) * Float32.ulp_half) < inject_Z t + 1)%Q /\
      (inject_Z t <= inject_Z k / inject_Z r * inject_Z u
                       * (1 + (5 # 1) * Float32.ulp_half))%Q)
  /\
  (forall k1 k2 r u t2,
      0 <= k1 <= k2 -> 0 < r -> 0 <= u ->
      timestamp k2 r u = Some t2 ->
      exists t1, timestamp k1 r u = Some t1 /\ t1 <= t2).
Proof.
  split; [|split; [|split]].
  - intros ctx first cur ctx' first' line rest H.
    unfold receive_sample in H.
    cbn [samplecount samplerate period set_samplecount prevsample probeindices
         unitsize] in H.
    bind_inv H. destruct (negb first && b); [discriminate|].
    bind_inv H. injection H as <- _ <- _. cbn. eauto.
  - apply TimestampFacts.timestamp_exact.
  - intros k r u t Hk Hr Hu Ru Ht.
    exact (TimestampFacts.timestamp_error k r u t Hk Hr Hu Ru Ht).
  - apply TimestampFacts.timestamp_mono.
Qed.

Lemma timestamp_single_precision_witness :
  exists t1, timestamp (2 ^ 24) 1 1000 = Some t1 /\ t1 <= 16777216000.
Proof.
  apply (proj2 (proj2 (proj2 timestamp_single_precision))
           (2 ^ 24) (2 ^ 24 + 1) 1 1000 16777216000).
  - lia.
  - lia.
  - lia.
  - vm_compute. reflexivity.
Defined.

(** * Further properties of the code *)

(** ** NameParser *)

Module StringFacts.

Lemma length_app (s1 s2 : string) :
  String.length (s1 ++ s2) = (String.length s1 + String.length s2)%nat.
Proof. induction s1 as [|c s1 IH]; cbn; [reflexivity | now rewrite IH]. Qed.

Lemma get_app_l (s1 s2 : string) (n : nat) :
  (n < String.length s1)%nat -> String.get n (s1 ++ s2) = String.get n s1.
Proof.
  revert n. induction s1 as [|c s1 IH]; intros n H; cbn in *; [lia|].
  destruct n; [reflexivity|]. apply IH. lia.
Qed.

Lemma get_app_r (s1 s2 : string) (n : nat) :
  String.get (String.length s1 + n) (s1 ++ s2) = String.get n s2.
Proof. induction s1 as [|c s1 IH]; cbn; [reflexivity | exact IH]. Qed.

Lemma get_none (s : string) (n : nat) :
  (String.length s <= n)%nat -> String.get n s = None.
Proof.
  revert n. induction s as [|c s IH]; intros n H; cbn in *; [reflexivity|].
  destruct n; [lia|]. apply IH. lia.
Qed.

Lemma get_some (s : string) (n : nat) :
  (n < String.length s)%nat -> exists c, String.get n s = Some c.
Proof.
  revert n. induction s as [|c s IH]; intros n H; cbn in *; [lia|].
  destruct n; [eauto|]. apply IH. lia.
Qed.

Lemma substring_all (s : string) (m : nat) :
  (String.length s <= m)%nat -> substring 0 m s = s.
Proof.
  revert m. induction s as [|c s IH]; intros m H; cbn in *.
  - now destruct m.
  - destruct m; [lia|]. f_equal. apply IH. lia.
Qed.

Lemma substring_app_l (s1 s2 : string) :
  substring 0 (String.length s1) (s1 ++ s2) = s1.
Proof.
  induction s1 as [|c s1 IH]; cbn.
  - now destruct s2.
  - now rewrite IH.
Qed.

Lemma substring_app_r (s1 s2 : string) (n m : nat) :
  substring (String.length s1 + n) m (s1 ++ s2) = substring n m s2.
Proof. induction s1 as [|c s1 IH]; cbn; [reflexivity | exact IH]. Qed.

(** A string is its first [n] characters followed by the rest. *)
Lemma substring_split (s : string) (n : nat) :
  (n <= String.length s)%nat ->
  s = (substring 0 n s ++ substring n (String.length s - n) s)%string.
Proof.
  revert n. induction s as [|c s IH]; intros n H; cbn in *.
  - now destruct n.
  - destruct n; cbn.
    + f_equal. symmetry. apply substring_all. lia.
    + f_equal. apply IH. lia.
Qed.

Lemma substring_length (s : string) (n m : nat) :
  (n + m <= String.length s)%nat -> String.length (substring n m s) = m.
Proof.
  revert n m. induction s as [|c s IH]; intros n m H; cbn in *.
  - destruct n, m; cbn; lia.
  - destruct n.
    + destruct m; cbn; [reflexivity|]. f_equal. apply (IH 0%nat). lia.
    + apply IH. lia.
Qed.

Lemma substring_get (s : string) (n m k : nat) :
  (k < m)%nat -> (n + m <= String.length s)%nat ->
  String.get k (substring n m s) = String.get (n + k) s.
Proof.
  revert n m k. induction s as [|c s IH]; intros n m k Hk H; cbn in *; [lia|].
  destruct n.
  - destruct m; [lia|]. cbn. destruct k; [reflexivity|].
    apply (IH 0%nat). lia. lia.
  - cbn. apply IH; lia.
Qed.

(** The first character of a non-empty substring. *)
Lemma substring_step (s : string) (n m : nat) (c : ascii) :
  String.get n s = Some c ->
  substring n (S m) s = String c (substring (S n) m s).
Proof.
  revert n. induction s as [|d s IH]; intros n H; cbn in *; [discriminate|].
  destruct n.
  - injection H as ->. reflexivity.
  - rewrite (IH n H). reflexivity.
Qed.

Lemma all_digits_get (s : string) (n : nat) :
  all_digits s = true -> (n < String.length s)%nat ->
  exists c, String.get n s = Some c /\ isdigit c = true.
Proof.
  revert n. induction s as [|c s IH]; intros n Hd H; cbn in *; [lia|].
  apply andb_prop in Hd as [Hc Hs].
  destruct n; [eauto|]. apply IH; [assumption | lia].
Qed.

Lemma all_digits_intro (s : string) :
  (forall n c, String.get n s = Some c -> isdigit c = true) ->
  all_digits s = true.
Proof.
  induction s as [|c s IH]; intros H; cbn; [reflexivity|].
  rewrite (H 0%nat c eq_refl). cbn. apply IH.
  intros n d Hn. apply (H (S n) d). exact Hn.
Qed.

Lemma digits_value_app (ds rest : string) (acc : Z) :
  all_digits ds = true ->
  digits_value (ds ++ rest) acc = digits_value rest (digits_value ds acc).
Proof.
  revert acc. induction ds as [|c ds IH]; intros acc H; cbn in *; [reflexivity|].
  apply andb_prop in H as [Hc Hs]. rewrite Hc. now apply IH.
Qed.

Lemma substring_zero (s : string) (n : nat) : substring n 0 s = EmptyString.
Proof.
  revert n. induction s as [|c s IH]; intros n; cbn.
  - now destruct n.
  - destruct n; [reflexivity | apply IH].
Qed.

(** Substrings of substrings. *)
Lemma substring_nested (s : string) (n m a b : nat) :
  (a + b <= m)%nat -> (n + m <= String.length s)%nat ->
  substring a b (substring n m s) = substring (n + a) b s.
Proof.
  revert n m a b. induction s as [|c s IH]; intros n m a b Hab H; cbn in *.
  - assert (n = 0%nat) by lia. assert (m = 0%nat) by lia. subst.
    assert (a = 0%nat) by lia. assert (b = 0%nat) by lia. subst. reflexivity.
  - destruct n.
    + destruct m.
      * assert (a = 0%nat) by lia. assert (b = 0%nat) by lia. subst. reflexivity.
      * cbn. destruct a.
        -- destruct b; [reflexivity|]. f_equal.
           apply (IH 0%nat m 0%nat b); lia.
        -- apply (IH 0%nat m a b); lia.
    + cbn. apply IH; lia.
Qed.

Lemma substring_within (s : string) (n m b : nat) :
  (b <= m)%nat -> (n + m <= String.length s)%nat ->
  substring 0 b (substring n m s) = substring n b s.
Proof.
  intros Hb H. rewrite substring_nested by lia. f_equal. lia.
Qed.

(** Asking for more characters than are left gives what is left. *)
Lemma substring_overlong (s : string) (n m : nat) :
  (String.length s - n <= m)%nat ->
  substring n m s = substring n (String.length s - n) s.
Proof.
  revert n m. induction s as [|c s IH]; intros n m H; cbn in *.
  - destruct n, m; reflexivity.
  - destruct n.
    + destruct m; [lia|]. f_equal.
      rewrite (IH 0%nat m) by lia. now rewrite Nat.sub_0_r.
    + apply IH. lia.
Qed.

End StringFacts.

Module NameParser.
Import StringFacts.

Lemma str_at_nat (str : string) (k : nat) :
  str_at str (Z.of_nat k) =
  match String.get k str with Some c => c | None => zero end.
Proof. unfold str_at. now rewrite Nat2Z.id. Qed.

(** Where the loop over the digits stops. *)
Lemma skip_digits_spec (str : string) (e : nat) :
  (skip_digits str e <= e)%nat /\
  (forall k, (skip_digits str e < k <= e)%nat ->
             isdigit (str_at str (Z.of_nat k)) = true) /\
  (skip_digits str e = 0%nat \/
   isdigit (str_at str (Z.of_nat (skip_digits str e))) = false).
Proof.
  induction e as [|e (IH1 & IH2 & IH3)]; cbn [skip_digits].
  - repeat split; [lia | intros; lia | now left].
  - destruct (isdigit (str_at str (Z.of_nat (S e)))) eqn:E.
    + repeat split; [lia | | exact IH3].
      intros k Hk. destruct (Nat.eq_dec k (S e)) as [-> | Hne];
        [exact E | apply IH2; lia].
    + repeat split; [lia | intros; lia | now right].
Qed.

Lemma skip_digits_run (str : string) (lo : nat) (j : nat) :
  (forall k, (lo < k <= lo + j)%nat ->
             isdigit (str_at str (Z.of_nat k)) = true) ->
  (lo = 0%nat \/ isdigit (str_at str (Z.of_nat lo)) = false) ->
  skip_digits str (lo + j) = lo.
Proof.
  intros Hd Hlo. induction j as [|j IH].
  - rewrite Nat.add_0_r. destruct lo as [|lo]; [reflexivity|].
    cbn [skip_digits]. destruct Hlo as [Hlo|Hlo]; [discriminate|].
    now rewrite Hlo.
  - rewrite Nat.add_succ_r. cbn [skip_digits].
    rewrite <- Nat.add_succ_r. rewrite Hd by lia.
    apply IH. intros k Hk. apply Hd. lia.
Qed.

Lemma digits_value_stop (ds : string) (c : ascii) (rest : string) :
  all_digits ds = true -> isdigit c = false ->
  strtoul (ds ++ String c rest) = strtoul ds.
Proof.
  intros Hd Hc. unfold strtoul. rewrite digits_value_app by assumption.
  cbn [digits_value]. now rewrite Hc.
Qed.

(** A name [base<digits>] with a non-empty base and at least one digit is
    recognized: the result is the base and the value of the digits. *)
Lemma get_array_str_digits (base ds : string) :
  base <> EmptyString -> ds <> EmptyString -> all_digits ds = true ->
  get_array_str (base ++ "<" ++ ds ++ ">")
  = Some (base, to_int (strtoul ds)).
Proof.
  intros Hb Hds Hd.
  set (str := (base ++ "<" ++ ds ++ ">")%string).
  remember (String.length base) as L eqn:EL.
  remember (String.length ds) as D eqn:ED.
  assert (HL : (0 < L)%nat) by (destruct base; [contradiction | cbn in EL; lia]).
  assert (HD : (0 < D)%nat) by (destruct ds; [contradiction | cbn in ED; lia]).
  assert (Hlen : String.length str = (L + (1 + (D + 1)))%nat).
  { unfold str. rewrite length_app. cbn [append String.length].
    rewrite length_app. subst L D. reflexivity. }
  assert (Hget : forall k,
             String.get (L + S k) str = String.get k (ds ++ ">")).
  { intros k. unfold str. rewrite EL, get_app_r. reflexivity. }
  assert (Hlt : String.get L str = Some "<"%char).
  { unfold str. rewrite EL, <- (Nat.add_0_r (String.length base)).
    rewrite get_app_r. reflexivity. }
  assert (Hgt : String.get (L + S D) str = Some ">"%char).
  { rewrite Hget, ED, <- (Nat.add_0_r (String.length ds)).
    rewrite get_app_r. reflexivity. }
  assert (Hdig : forall k, (L < k <= L + D)%nat ->
                           isdigit (str_at str (Z.of_nat k)) = true).
  { intros k Hk. rewrite str_at_nat.
    replace k with (L + S (k - L - 1))%nat by lia.
    rewrite Hget, get_app_l by (rewrite <- ED; lia).
    destruct (all_digits_get ds (k - L - 1) Hd) as (c & -> & Hc);
      [rewrite <- ED; lia | exact Hc]. }
  assert (Hsub : substring (L + 1) (String.length str) str = (ds ++ ">")%string).
  { unfold str at 2. rewrite EL, substring_app_r.
    cbn [append substring]. apply substring_all.
    rewrite Hlen, length_app, <- ED. cbn. lia. }
  assert (Hbase : substring 0 L str = base).
  { unfold str. rewrite EL. apply substring_app_l. }
  clearbody str.
  unfold get_array_str, strlen. rewrite Hlen.
  replace (Z.of_nat (L + (1 + (D + 1))) - 1) with (Z.of_nat (L + S D)) by lia.
  rewrite str_at_nat, Hgt. cbv beta iota.
  rewrite Ascii.eqb_refl. cbn [negb].
  replace (Z.of_nat (L + S D) - 1) with (Z.of_nat (L + D)) by lia.
  rewrite (proj2 (Z.leb_gt (Z.of_nat (L + D)) 0)) by lia.
  rewrite Hdig by lia. cbn [negb orb].
  rewrite Nat2Z.id.
  rewrite (skip_digits_run str L D Hdig)
    by (right; rewrite str_at_nat, Hlt; reflexivity).
  rewrite (proj2 (Z.eqb_neq (Z.of_nat L) 0)) by lia.
  rewrite str_at_nat, Hlt. cbv beta iota. rewrite Ascii.eqb_refl.
  cbn [orb negb].
  rewrite Nat2Z.id.
  replace (Z.to_nat (Z.of_nat L + 1)) with (L + 1)%nat by lia.
  rewrite <- Hlen, Hsub, Hbase.
  rewrite digits_value_stop by (assumption || reflexivity).
  reflexivity.
Qed.

(** Only such names are recognized: a result comes with the digits that
    were read, and the name is the base, ['<'], the digits and ['>']. *)
Lemma get_array_str_inv (str base : string) (idx : Z) :
  get_array_str str = Some (base, idx) ->
  exists ds,
    str = (base ++ "<" ++ ds ++ ">")%string /\
    base <> EmptyString /\ ds <> EmptyString /\
    all_digits ds = true /\
    idx = to_int (strtoul ds).
Proof.
  unfold get_array_str, strlen.
  remember (String.length str) as n eqn:En.
  destruct (Ascii.eqb_spec (str_at str (Z.of_nat n - 1)) ">"%char) as [Hgt|];
    [cbn [negb] | discriminate].
  destruct (Z.leb_spec (Z.of_nat n - 1 - 1) 0) as [|Hn]; [discriminate|].
  cbn [orb].
  destruct (isdigit (str_at str (Z.of_nat n - 1 - 1))) eqn:Hlast;
    [cbn [negb] | discriminate].
  replace (Z.to_nat (Z.of_nat n - 1 - 1)) with (n - 2)%nat by lia.
  destruct (skip_digits_spec str (n - 2)) as (Hle & Hdig & Hstop).
  remember (skip_digits str (n - 2)) as e eqn:Ee.
  destruct (Z.eqb_spec (Z.of_nat e) 0) as [|He]; [discriminate|].
  cbn [orb].
  destruct (Ascii.eqb_spec (str_at str (Z.of_nat e)) "<"%char) as [Hlt|];
    [cbn [negb] | discriminate].
  rewrite Nat2Z.id.
  replace (Z.to_nat (Z.of_nat e + 1)) with (S e) by lia.
  intros [= <- <-].
  assert (He2 : (e < n - 2)%nat).
  { destruct (Nat.eq_dec e (n - 2)) as [E|]; [|lia].
    exfalso. rewrite E in Hlt.
    replace (Z.of_nat n - 1 - 1) with (Z.of_nat (n - 2)) in Hlast by lia.
    rewrite Hlt in Hlast. discriminate. }
  (* the characters at [e] and at [n - 1] *)
  assert (Hge : String.get e str = Some "<"%char).
  { rewrite str_at_nat in Hlt.
    destruct (get_some str e) as [c Hc]; [lia|].
    rewrite Hc in Hlt. now subst c. }
  assert (Hgn : String.get (n - 1) str = Some ">"%char).
  { replace (Z.of_nat n - 1) with (Z.of_nat (n - 1)) in Hgt by lia.
    rewrite str_at_nat in Hgt.
    destruct (get_some str (n - 1)) as [c Hc]; [lia|].
    rewrite Hc in Hgt. now subst c. }
  set (ds := substring (S e) (n - 2 - e) str).
  assert (Hrest : substring e (n - e) str = String "<" (ds ++ ">")).
  { replace (n - e)%nat with (S (n - e - 1)) by lia.
    rewrite (substring_step _ _ _ _ Hge). f_equal.
    (* split what follows ['<'] into the digits and the last character *)
    assert (Htail : substring (S e) (n - e - 1) str
                    = (ds ++ substring (n - 1) 1 str)%string).
    { pose proof (substring_split (substring (S e) (n - e - 1) str)
                    (n - 2 - e)) as Hs.
      rewrite substring_length in Hs by lia.
      specialize (Hs ltac:(lia)).
      rewrite Hs. f_equal.
      - unfold ds. clear Hs.
        apply substring_within; lia.
      - clear Hs. replace (n - e - 1 - (n - 2 - e))%nat with 1%nat by lia.
        rewrite substring_nested by lia. f_equal. lia. }
    rewrite Htail. f_equal.
    rewrite (substring_step _ _ _ _ Hgn). f_equal.
    apply substring_zero. }
  exists ds. repeat split.
  - rewrite (substring_split str e) at 1 by lia.
    rewrite <- En, Hrest. reflexivity.
  - intros Hb. pose proof (substring_length str 0 e ltac:(lia)) as Hl.
    rewrite Hb in Hl. cbn in Hl. lia.
  - intros Hd. pose proof (substring_length str (S e) (n - 2 - e) ltac:(lia)) as Hl.
    fold ds in Hl. rewrite Hd in Hl. cbn in Hl. lia.
  - apply all_digits_intro. intros k c Hk. unfold ds in Hk.
    assert (Hkl : (k < n - 2 - e)%nat).
    { destruct (Nat.lt_ge_cases k (n - 2 - e)) as [|Hge']; [assumption|].
      rewrite get_none in Hk; [discriminate|].
      rewrite substring_length by lia. exact Hge'. }
    rewrite substring_get in Hk by lia.
    specialize (Hdig (S e + k)%nat ltac:(lia)).
    rewrite str_at_nat, Hk in Hdig. exact Hdig.
  - f_equal.
    rewrite (substring_overlong str (S e) n) by lia.
    replace (String.length str - S e)%nat with (n - e - 1)%nat by lia.
    assert (Htail : substring (S e) (n - e - 1) str = (ds ++ ">")%string).
    { replace (n - e)%nat with (S (n - e - 1)) in Hrest by lia.
      rewrite (substring_step _ _ _ _ Hge) in Hrest. now injection Hrest. }
    rewrite Htail. apply digits_value_stop; [|reflexivity].
    apply all_digits_intro. intros k c Hk. unfold ds in Hk.
    assert (Hkl : (k < n - 2 - e)%nat).
    { destruct (Nat.lt_ge_cases k (n - 2 - e)) as [|Hge']; [assumption|].
      rewrite get_none in Hk; [discriminate|].
      rewrite substring_length by lia. exact Hge'. }
    rewrite substring_get in Hk by lia.
    specialize (Hdig (S e + k)%nat ltac:(lia)).
    rewrite str_at_nat, Hk in Hdig. exact Hdig.
Qed.

Lemma uint_digits (d : Decimal.uint) :
  all_digits (NilEmpty.string_of_uint d) = true.
Proof. induction d; cbn; try assumption; reflexivity. Qed.

Lemma uint_value_acc (d : Decimal.uint) :
  forall p : positive,
    digits_value (NilEmpty.string_of_uint d) (Z.pos p)
    = Z.pos (Pos.of_uint_acc d p).
Proof.
  induction d; intros p; cbn [NilEmpty.string_of_uint digits_value Pos.of_uint_acc];
    try reflexivity;
    match goal with
    | |- context [isdigit ?c] =>
        change (isdigit c) with true; cbv beta iota;
        rewrite <- IHd; f_equal;
        let v := eval vm_compute in (code c) in change (code c) with v;
        lia
    end.
Qed.

Lemma uint_value (d : Decimal.uint) :
  digits_value (NilEmpty.string_of_uint d) 0 = Z.of_N (Pos.of_uint d).
Proof.
  induction d; cbn [NilEmpty.string_of_uint digits_value Pos.of_uint];
    try reflexivity;
    match goal with
    | |- context [isdigit ?c] => change (isdigit c) with true; cbv beta iota
    end;
    [exact IHd | ..];
    match goal with
    | |- digits_value _ ?a = _ =>
        let v := eval vm_compute in a in change a with v
    end;
    now rewrite uint_value_acc.
Qed.

(** The decimal text of a number that is not negative: digits, at least
    one, whose value is the number. *)
Lemma decimal_digits (n : Z) :
  0 <= n ->
  all_digits (decimal n) = true /\
  decimal n <> EmptyString /\
  digits_value (decimal n) 0 = n.
Proof.
  intros Hn. unfold decimal. destruct n as [|p|p]; [| |lia].
  - repeat split. discriminate.
  - cbn [Z.to_int NilZero.string_of_int].
    pose proof (DecimalPos.Unsigned.to_uint_nonnil p) as Hnil.
    assert (E : NilZero.string_of_uint (Pos.to_uint p)
                = NilEmpty.string_of_uint (Pos.to_uint p))
      by (destruct (Pos.to_uint p); [contradiction | reflexivity..]).
    rewrite E. repeat split.
    + apply uint_digits.
    + destruct (Pos.to_uint p); [contradiction | discriminate..].
    + rewrite uint_value, DecimalPos.Unsigned.of_to. reflexivity.
Qed.

End NameParser.

(** ** NameParser: [get_array_str] *)

(** X1. [get_array_str] recognizes exactly the names made of a base that is
    not empty, ['<'], one digit or more and ['>']: it returns the base
    and the number that [strtoul] reads in the digits, converted to
    [int]; for every other name it returns [NULL]. *)
Theorem get_array_str_vector_name (str base : string) (idx : Z) :
  get_array_str str = Some (base, idx)
  <->
  exists ds,
    str = (base ++ "<" ++ ds ++ ">")%string /\
    base <> EmptyString /\ ds <> EmptyString /\
    all_digits ds = true /\
    idx = to_int (strtoul ds).
Proof.
  split.
  - apply NameParser.get_array_str_inv.
  - intros (ds & -> & Hb & Hds & Hd & ->).
    now apply NameParser.get_array_str_digits.
Qed.

(** X2. Writing the bit number in decimal between ['<'] and ['>'] after a
    base and parsing the name gives the base and the number back. *)
Theorem get_array_str_decimal (base : string) (n : Z) :
  base <> EmptyString -> 0 <= n < 2 ^ 31 ->
  get_array_str (base ++ "<" ++ decimal n ++ ">") = Some (base, n).
Proof.
  intros Hb [Hn0 Hn].
  destruct (NameParser.decimal_digits n Hn0) as (Hd & Hne & Hv).
  rewrite NameParser.get_array_str_digits by assumption.
  unfold strtoul. rewrite Hv.
  rewrite Z.min_l by lia.
  unfold to_int. rewrite wrap_small by lia.
  now rewrite (proj2 (Z.ltb_lt n (2 ^ 31))) by lia.
Qed.

Lemma get_array_str_decimal_witness :
  get_array_str ("data" ++ "<" ++ decimal 12 ++ ">") = Some ("data", 12).
Proof.
  apply (get_array_str_decimal "data" 12); [discriminate | lia].
Defined.

(** ** ProbeRegistry: lookup and sorting *)

(** X3. [probe_find] returns the first vector probe of the name, and [NULL]
    only when the registry has none. *)
Theorem probe_find_first (registry : list probe_context) (name : string) :
  match probe_find registry name with
  | Some k =>
      exists probe_ctx,
        nth_error registry k = Some probe_ctx /\
        is_vector probe_ctx = true /\ ctx_name probe_ctx = name /\
        forall j other,
          (j < k)%nat -> nth_error registry j = Some other ->
          is_vector other = false \/ ctx_name other <> name
  | None =>
      forall probe_ctx,
        In probe_ctx registry ->
        is_vector probe_ctx = false \/ ctx_name probe_ctx <> name
  end.
Proof.
  induction registry as [|pc rest IH]; cbn [probe_find].
  - intros pc [].
  - destruct (is_vector pc) eqn:Ev; cbn [andb].
    + destruct (String.eqb_spec (ctx_name pc) name) as [En|En].
      * exists pc. repeat split; try assumption. intros j other Hj. lia.
      * destruct (probe_find rest name) as [k|]; cbn [option_map].
        -- destruct IH as (pc' & Hn & Hv & Hname & Hfirst).
           exists pc'. repeat split; try assumption.
           intros [|j] other Hj Hnth; cbn in Hnth.
           ++ injection Hnth as <-. now right.
           ++ apply (Hfirst j); [lia | assumption].
        -- intros pc' [<- | Hin]; [now right | now apply IH].
    + destruct (probe_find rest name) as [k|]; cbn [option_map].
      * destruct IH as (pc' & Hn & Hv & Hname & Hfirst).
        exists pc'. repeat split; try assumption.
        intros [|j] other Hj Hnth; cbn in Hnth.
        -- injection Hnth as <-. now left.
        -- apply (Hfirst j); [lia | assumption].
      * intros pc' [<- | Hin]; [now left | now apply IH].
Qed.

Lemma sort_insert_perm (x : bit_index) (l : list bit_index) :
  Permutation (x :: l) (sort_insert sort_bits x l).
Proof.
  induction l as [|y l IH]; cbn [sort_insert]; [reflexivity|].
  destruct (sort_bits x y <=? 0); [reflexivity|].
  rewrite perm_swap. now constructor.
Qed.

Lemma sort_bits_le (x y : bit_index) :
  (sort_bits x y <=? 0) = (bit y <=? bit x).
Proof.
  unfold sort_bits.
  destruct (Z.eqb_spec (bit x) (bit y)); [lia|].
  destruct (Z.ltb_spec (bit x) (bit y)); lia.
Qed.

Lemma sort_insert_sorted (x : bit_index) (l : list bit_index) :
  StronglySorted bit_ge l -> StronglySorted bit_ge (sort_insert sort_bits x l).
Proof.
  induction 1 as [|y l Hs IH Hy]; cbn [sort_insert].
  - repeat constructor.
  - rewrite sort_bits_le. destruct (Z.leb_spec (bit y) (bit x)) as [Hle|Hgt].
    + constructor; [now constructor|].
      constructor; [exact Hle|].
      eapply Forall_impl; [|exact Hy]. unfold bit_ge. intros a Ha. lia.
    + constructor; [exact IH|].
      eapply Permutation_Forall; [apply sort_insert_perm|].
      constructor; [unfold bit_ge; lia | exact Hy].
Qed.

Lemma g_array_sort_perm (l : list bit_index) :
  Permutation l (g_array_sort sort_bits l).
Proof.
  unfold g_array_sort. induction l as [|x l IH]; cbn [fold_right];
    [constructor|].
  rewrite <- sort_insert_perm. now constructor.
Qed.

Lemma g_array_sort_sorted (l : list bit_index) :
  StronglySorted bit_ge (g_array_sort sort_bits l).
Proof.
  unfold g_array_sort. induction l as [|x l IH]; cbn [fold_right];
    [constructor|].
  now apply sort_insert_sorted.
Qed.

(** X4. [g_array_sort] with [sort_bits] keeps the entries and puts them in
    the order of their bit, highest first. *)
Theorem g_array_sort_bits (l : list bit_index) :
  Permutation l (g_array_sort sort_bits l) /\
  StronglySorted bit_ge (g_array_sort sort_bits l).
Proof.
  split; [apply g_array_sort_perm | apply g_array_sort_sorted].
Qed.

(** ** ProbeRegistry: what the loop of [init] keeps *)

Lemma append_index_nth (reg : list probe_context) (k : nat) (b : bit_index) :
  forall j pc',
    nth_error (append_index reg k b) j = Some pc' ->
    exists pc,
      nth_error reg j = Some pc /\
      symbol pc' = symbol pc /\ ctx_name pc' = ctx_name pc /\
      is_vector pc' = is_vector pc /\
      (indices pc' = indices pc \/
       (j = k /\ indices pc' = indices pc ++ [b])).
Proof.
  revert k. induction reg as [|pc reg IH]; intros k j pc' H.
  - destruct k, j; discriminate H.
  - destruct k; cbn [append_index] in H.
    + destruct j; cbn in H.
      * injection H as <-. exists pc. cbn. repeat split. right. auto.
      * exists pc'. cbn. repeat split; auto.
    + destruct j; cbn in H.
      * injection H as <-. exists pc. cbn. repeat split; auto.
      * destruct (IH k j pc' H) as (pc0 & Hn & Hs & Hc & Hv & Hi).
        exists pc0. cbn. repeat split; try assumption.
        destruct Hi as [Hi | [-> Hi]]; [now left | right; auto].
Qed.

Lemma probe_find_vector (reg : list probe_context) (name : string) :
  forall k,
    probe_find reg name = Some k ->
    exists pc, nth_error reg k = Some pc /\ is_vector pc = true.
Proof.
  induction reg as [|pc reg IH]; intros k H; cbn [probe_find] in H;
    [discriminate|].
  destruct (is_vector pc && (ctx_name pc =? name)%string) eqn:E.
  - injection H as <-. exists pc. split; [reflexivity|].
    now apply andb_prop in E.
  - destruct (probe_find reg name) as [k'|]; [|discriminate].
    injection H as <-. cbn [nth_error]. now apply IH.
Qed.

Lemma probe_find_none (reg : list probe_context) (name : string) :
  probe_find reg name = None ->
  forall pc, In pc reg -> is_vector pc = false \/ ctx_name pc <> name.
Proof.
  induction reg as [|pc reg IH]; intros H pc' Hin; [destruct Hin|].
  cbn [probe_find] in H.
  destruct (is_vector pc && (ctx_name pc =? name)%string) eqn:E;
    [discriminate|].
  destruct (probe_find reg name) as [k'|]; [discriminate|].
  destruct Hin as [<- | Hin]; [|now apply IH].
  apply andb_false_iff in E as [E|E]; [now left | right].
  now apply String.eqb_neq.
Qed.

Lemma entry_ok_grow (n m : Z) (k : nat) (pc : probe_context) :
  n <= m -> entry_ok n k pc -> entry_ok m k pc.
Proof.
  intros Hnm (H1 & H2 & H3 & H4). repeat split; try assumption.
  eapply Forall_impl; [|exact H4]. cbn. intros a Ha. lia.
Qed.

(** A turn of the loop of [init] keeps the shape of the registry. *)
Lemma init_probe_ok (st : list probe_context * Z) (p : sr_probe) :
  registry_ok (fst st) -> registry_ok (fst (init_probe st p)).
Proof.
  destruct st as [reg n]. cbn [fst]. intros [Hshape Hnames].
  unfold init_probe. destruct (enabled p); cbn [negb fst]; [|now split].
  set (parsed := get_array_str (name p)).
  set (bidx := {| bit := match parsed with Some (_, idx) => idx | None => 0 end;
                  sample := len reg |}).
  assert (Hnew : forall nm v,
             (v = false -> bit bidx = 0) ->
             (v = true ->
              forall pc, In pc reg -> is_vector pc = false \/ ctx_name pc <> nm) ->
             registry_ok (reg ++ [ {| indices := [bidx];
                                      symbol := char_of (code "!"%char + (len reg + 1) - 1);
                                      ctx_name := nm; is_vector := v |} ])).
  { intros nm v Hbit Hfresh. split.
    - intros k pc Hk. rewrite len_app. change (len [_]) with 1.
      destruct (Nat.lt_ge_cases k (List.length reg)) as [Hlt|Hge].
      + rewrite nth_error_app1 in Hk by assumption.
        eapply entry_ok_grow; [|apply Hshape; exact Hk]. lia.
      + rewrite nth_error_app2 in Hk by assumption.
        destruct (k - List.length reg)%nat as [|d] eqn:Ed; cbn [nth_error] in Hk;
          [|destruct d; discriminate Hk].
        injection Hk as <-. assert (k = List.length reg) by lia. subst k.
        split; [|split; [|split]].
        * change (char_of (code "!"%char + (len reg + 1) - 1)
                  = char_of (code "!"%char + Z.of_nat (List.length reg))).
          f_equal. unfold len. lia.
        * discriminate.
        * intros Hv. exists (len reg). specialize (Hbit Hv).
          change (indices _) with [bidx]. f_equal.
          unfold bidx in *. cbn [bit] in Hbit. now rewrite Hbit.
        * change (indices _) with [bidx].
          repeat constructor; cbn [sample bidx]; pose proof (len_nonneg reg); lia.
    - intros i j pi pj Hi Hj Hvi Hvj Hn.
      destruct (Nat.lt_ge_cases i (List.length reg)) as [Hli|Hgi];
        destruct (Nat.lt_ge_cases j (List.length reg)) as [Hlj|Hgj].
      + rewrite nth_error_app1 in Hi, Hj by assumption. eauto.
      + rewrite nth_error_app1 in Hi by assumption.
        rewrite nth_error_app2 in Hj by assumption.
        destruct (j - List.length reg)%nat as [|d]; cbn in Hj;
          [|destruct d; discriminate Hj].
        injection Hj as <-. cbn in Hvj, Hn. exfalso.
        destruct (Hfresh Hvj pi (nth_error_In _ _ Hi)) as [Hf|Hf];
          [congruence | now apply Hf].
      + rewrite nth_error_app2 in Hi by assumption.
        rewrite nth_error_app1 in Hj by assumption.
        destruct (i - List.length reg)%nat as [|d]; cbn in Hi;
          [|destruct d; discriminate Hi].
        injection Hi as <-. cbn in Hvi, Hn. exfalso.
        destruct (Hfresh Hvi pj (nth_error_In _ _ Hj)) as [Hf|Hf];
          [congruence | now apply Hf].
      + rewrite nth_error_app2 in Hi, Hj by assumption.
        destruct (i - List.length reg)%nat as [|d] eqn:Ei; cbn in Hi;
          [|destruct d; discriminate Hi].
        destruct (j - List.length reg)%nat as [|d] eqn:Ej; cbn in Hj;
          [|destruct d; discriminate Hj].
        lia. }
  destruct parsed as [[base idx]|] eqn:Ep.
  - destruct (probe_find reg base) as [k|] eqn:Ef.
    + cbn [fst]. split.
      * intros j pc' Hj. rewrite append_index_length.
        destruct (append_index_nth _ _ _ _ _ Hj)
          as (pc & Hn & Hs & Hc & Hv & Hi).
        destruct (Hshape j pc Hn) as (H1 & H2 & H3 & H4).
        unfold entry_ok. rewrite Hs, Hv.
        destruct Hi as [Hi | [-> Hi]]; rewrite Hi.
        -- repeat split; assumption.
        -- destruct (probe_find_vector _ _ _ Ef) as (pc0 & Hn0 & Hv0).
           assert (pc0 = pc) by congruence. subst pc0.
           repeat split.
           ++ assumption.
           ++ destruct (indices pc); discriminate.
           ++ intros Hv'. congruence.
           ++ apply Forall_app. split; [assumption|].
              repeat constructor; cbn; pose proof (len_nonneg reg); lia.
      * intros i j pi pj Hi Hj Hvi Hvj Hn.
        destruct (append_index_nth _ _ _ _ _ Hi) as (qi & Hqi & _ & Hci & Hwi & _).
        destruct (append_index_nth _ _ _ _ _ Hj) as (qj & Hqj & _ & Hcj & Hwj & _).
        apply (Hnames i j qi qj); congruence.
    + cbn [fst]. apply Hnew; [discriminate|].
      intros _. now apply probe_find_none.
  - cbn [fst]. apply Hnew; [reflexivity | discriminate].
Qed.

Lemma fold_init_probe_ok (ps : list sr_probe) :
  forall st, registry_ok (fst st) ->
             registry_ok (fst (fold_left init_probe ps st)).
Proof.
  induction ps as [|p ps IH]; intros st H; cbn [fold_left]; [assumption|].
  apply IH. now apply init_probe_ok.
Qed.

Lemma build_registry_ok (ps : list sr_probe) :
  registry_ok (fst (build_registry ps)).
Proof.
  apply fold_init_probe_ok. split.
  - intros k pc H. destruct k; discriminate H.
  - intros i j pi pj H. destruct i; discriminate H.
Qed.

Lemma code_char_of (x : Z) : 0 <= x < 256 -> code (char_of x) = x.
Proof.
  intros H. unfold code, char_of. rewrite wrap_small by (change (2 ^ 8) with 256; lia).
  rewrite N_ascii_embedding by lia. lia.
Qed.

Lemma sort_indices_nth (reg : list probe_context) (k : nat) (pc : probe_context) :
  nth_error (map sort_indices reg) k = Some pc ->
  exists pc0, nth_error reg k = Some pc0 /\ pc = sort_indices pc0.
Proof.
  rewrite nth_error_map. destruct (nth_error reg k) as [pc0|]; [|discriminate].
  intros [= <-]. eauto.
Qed.

Lemma init_ok_registry (h : host) (sdi : sr_dev_inst) (ctx : context) :
  init h sdi = (SR_OK, ctx) ->
  probeindices ctx = map sort_indices (fst (build_registry (probes sdi))) /\
  len (fst (build_registry (probes sdi))) <= 94.
Proof.
  unfold init. destruct (build_registry (probes sdi)) as [reg n].
  destruct (Z.gtb_spec (len reg) 94); [discriminate|].
  intros [= <-]. cbn. split; [reflexivity | lia].
Qed.

(** X5. After a successful [init] the probe at position [k] has the symbol
    with code ['!' + k], a printable character up to ['~'], and no two
    probes share a symbol. *)
Theorem init_symbols (h : host) (sdi : sr_dev_inst) (ctx : context) :
  init h sdi = (SR_OK, ctx) ->
  (forall k probe_ctx,
      nth_error (probeindices ctx) k = Some probe_ctx ->
      code (symbol probe_ctx) = code "!"%char + Z.of_nat k /\
      code "!"%char <= code (symbol probe_ctx) <= code "~"%char) /\
  NoDup (map symbol (probeindices ctx)).
Proof.
  intros Hinit. destruct (init_ok_registry _ _ _ Hinit) as [Hreg Hlen].
  destruct (build_registry_ok (probes sdi)) as [Hshape _].
  set (reg := fst (build_registry (probes sdi))) in *.
  assert (Hsym : forall k pc,
             nth_error (probeindices ctx) k = Some pc ->
             code (symbol pc) = code "!"%char + Z.of_nat k /\
             Z.of_nat k < 94).
  { intros k pc Hk. rewrite Hreg in Hk.
    destruct (sort_indices_nth _ _ _ Hk) as (pc0 & Hk0 & ->).
    destruct (Hshape k pc0 Hk0) as (Hs & _).
    assert (Hlt : (k < List.length reg)%nat)
      by (apply nth_error_Some; congruence).
    unfold len in Hlen. cbn [sort_indices symbol]. rewrite Hs.
    change (code "!"%char) with 33.
    rewrite code_char_of by lia. lia. }
  split.
  - intros k pc Hk. destruct (Hsym k pc Hk) as [Hc Hlt].
    change (code "!"%char) with 33 in *. change (code "~"%char) with 126. lia.
  - apply NoDup_nth_error. intros i j Hi Hij.
    rewrite length_map in Hi.
    rewrite !nth_error_map in Hij.
    destruct (nth_error (probeindices ctx) i) as [pi|] eqn:Ei;
      [|apply nth_error_None in Ei; lia].
    destruct (nth_error (probeindices ctx) j) as [pj|] eqn:Ej;
      [|discriminate].
    cbn in Hij. injection Hij as Hij.
    destruct (Hsym i pi Ei) as [Hci _]. destruct (Hsym j pj Ej) as [Hcj _].
    rewrite Hij in Hci. lia.
Qed.

Lemma init_symbols_witness :
  (forall k probe_ctx,
      nth_error (probeindices (snd (init demo_host sdi_interleaved))) k
      = Some probe_ctx ->
      code (symbol probe_ctx) = code "!"%char + Z.of_nat k /\
      code "!"%char <= code (symbol probe_ctx) <= code "~"%char) /\
  NoDup (map symbol (probeindices (snd (init demo_host sdi_interleaved)))).
Proof.
  apply (init_symbols demo_host sdi_interleaved). vm_compute. reflexivity.
Defined.

(** X6. After a successful [init] every probe has at least one bit, a scalar
    probe has exactly one, at position 0, the bits of a probe stand in
    descending order of their position, and every stored offset lies
    between 0 and the number of logical probes. *)
Theorem init_probe_bits (h : host) (sdi : sr_dev_inst) (ctx : context)
    (probe_ctx : probe_context) :
  init h sdi = (SR_OK, ctx) ->
  In probe_ctx (probeindices ctx) ->
  indices probe_ctx <> [] /\
  (is_vector probe_ctx = false ->
   exists s, indices probe_ctx = [ {| bit := 0; sample := s |} ]) /\
  StronglySorted bit_ge (indices probe_ctx) /\
  Forall (fun bidx => 0 <= sample bidx <= len (probeindices ctx))
    (indices probe_ctx) /\
  len (probeindices ctx) <= 94.
Proof.
  intros Hinit Hin. destruct (init_ok_registry _ _ _ Hinit) as [Hreg Hlen].
  destruct (build_registry_ok (probes sdi)) as [Hshape _].
  set (reg := fst (build_registry (probes sdi))) in *.
  apply In_nth_error in Hin as [k Hk]. rewrite Hreg in Hk.
  destruct (sort_indices_nth _ _ _ Hk) as (pc0 & Hk0 & ->).
  destruct (Hshape k pc0 Hk0) as (_ & Hne & Hsc & Hoff).
  pose proof (g_array_sort_perm (indices pc0)) as Hperm.
  pose proof (g_array_sort_sorted (indices pc0)) as Hsorted.
  cbn [sort_indices indices is_vector].
  assert (Hl : len (probeindices ctx) = len reg)
    by (rewrite Hreg; unfold len; now rewrite length_map).
  repeat split.
  - intros E. rewrite E in Hperm. apply Permutation_sym, Permutation_nil in Hperm.
    contradiction.
  - intros Hv. destruct (Hsc Hv) as [s Hs]. exists s. rewrite Hs. reflexivity.
  - exact Hsorted.
  - rewrite Hl. eapply Permutation_Forall; eassumption.
  - lia.
Qed.

Lemma init_probe_bits_witness :
  indices entry_gap <> [] /\
  (is_vector entry_gap = false ->
   exists s, indices entry_gap = [ {| bit := 0; sample := s |} ]) /\
  StronglySorted bit_ge (indices entry_gap) /\
  Forall (fun bidx =>
            0 <= sample bidx <= len (probeindices (snd (init demo_host sdi_gap))))
    (indices entry_gap) /\
  len (probeindices (snd (init demo_host sdi_gap))) <= 94.
Proof.
  apply (init_probe_bits demo_host sdi_gap (snd (init demo_host sdi_gap))
           entry_gap).
  - vm_compute. reflexivity.
  - vm_compute. left. reflexivity.
Defined.

(** X7. The loop of [init] never makes two vector probes of the same name:
    the bits of one vector are in one probe, wherever they stand in the
    probe list, and the header declares the vector once. *)
Theorem build_registry_vector_names (ps : list sr_probe) (i j : nat)
    (pi pj : probe_context) :
  nth_error (fst (build_registry ps)) i = Some pi ->
  nth_error (fst (build_registry ps)) j = Some pj ->
  i <> j ->
  is_vector pi = true -> is_vector pj = true ->
  ctx_name pi <> ctx_name pj.
Proof.
  intros Hi Hj Hij Hvi Hvj Hn.
  destruct (build_registry_ok ps) as [_ Hnames].
  exact (Hij (Hnames i j pi pj Hi Hj Hvi Hvj Hn)).
Qed.

Lemma build_registry_vector_names_witness :
  ctx_name {| indices := [ {| bit := 0; sample := 0 |};
                           {| bit := 1; sample := 2 |} ];
              symbol := "!"%char; ctx_name := "a"; is_vector := true |}
  <> ctx_name {| indices := [ {| bit := 0; sample := 1 |};
                              {| bit := 1; sample := 2 |} ];
                 symbol := "034"%char; ctx_name := "b"; is_vector := true |}.
Proof.
  apply (build_registry_vector_names two_vectors 0 1);
    first [ lia | vm_compute; reflexivity ].
Defined.

(** ** ProbeRegistry: enabled and disabled probes *)

Lemma init_probe_count (st : list probe_context * Z) (p : sr_probe) :
  registry_bits (fst (init_probe st p))
  = registry_bits (fst st) + (if enabled p then 1 else 0) /\
  snd (init_probe st p) = snd st + (if enabled p then 1 else 0).
Proof.
  destruct st as [reg n]. unfold init_probe.
  destruct (enabled p); cbn [negb fst snd]; [|lia].
  assert (Happ : forall k b,
             (k < List.length reg)%nat ->
             registry_bits (append_index reg k b) = registry_bits reg + 1).
  { intros k b. revert k. induction reg as [|pc reg IH]; intros k Hk;
      cbn [List.length] in Hk; [lia|].
    destruct k; cbn [append_index registry_bits fold_right indices].
    - rewrite len_app. change (len [b]) with 1. fold (registry_bits reg). lia.
    - fold (registry_bits (append_index reg k b)). fold (registry_bits reg).
      rewrite IH by lia. lia. }
  assert (Hnew : forall pc,
             len (indices pc) = 1 ->
             registry_bits (reg ++ [pc]) = registry_bits reg + 1).
  { intros pc Hpc. unfold registry_bits. rewrite fold_right_app.
    cbn [fold_right]. rewrite Hpc.
    generalize reg. intros l. induction l as [|a l IH]; cbn [fold_right]; lia. }
  destruct (get_array_str (name p)) as [[base idx]|].
  - destruct (probe_find reg base) as [k|] eqn:Ef; cbn [fst snd].
    + split; [|lia]. apply Happ.
      destruct (probe_find_vector _ _ _ Ef) as (pc & Hk & _).
      apply nth_error_Some. congruence.
    + split; [|lia]. now apply Hnew.
  - cbn [fst snd]. split; [|lia]. now apply Hnew.
Qed.

(** X8. The registry holds one bit entry for each enabled probe of the list,
    no more and no less, which is also the count [num_enabled_probes];
    disabled probes leave no trace. *)
Theorem build_registry_enabled (probes : list sr_probe) :
  build_registry probes = build_registry (filter enabled probes) /\
  registry_bits (fst (build_registry probes)) = len (filter enabled probes) /\
  snd (build_registry probes) = len (filter enabled probes).
Proof.
  unfold build_registry.
  assert (Hfilter : forall st,
             fold_left init_probe probes st
             = fold_left init_probe (filter enabled probes) st).
  { induction probes as [|p ps IH]; intros st; cbn [fold_left filter];
      [reflexivity|].
    destruct (enabled p) eqn:Ep; cbn [fold_left]; [apply IH|].
    rewrite <- IH. f_equal. destruct st as [reg n]. unfold init_probe.
    now rewrite Ep. }
  assert (Hcount : forall st,
             registry_bits (fst (fold_left init_probe probes st))
             = registry_bits (fst st) + len (filter enabled probes) /\
             snd (fold_left init_probe probes st)
             = snd st + len (filter enabled probes)).
  { clear Hfilter.
    induction probes as [|p ps IH]; intros st; cbn [fold_left filter].
    - change (len []) with 0. lia.
    - destruct (IH (init_probe st p)) as [H1 H2].
      destruct (init_probe_count st p) as [H3 H4].
      rewrite H1, H2, H3, H4.
      destruct (enabled p); unfold len; cbn [List.length]; lia. }
  split; [apply Hfilter|].
  destruct (Hcount ([], 0)) as [H1 H2]. cbn [fst snd registry_bits fold_right] in *.
  split; lia.
Qed.

(** ** BitAccessor, for every index *)

(** X9. Whenever [get_bit] has a defined result, the index is from 0 to 30
    and the result is 0 or 1: the bit of that index in the first byte for
    an index below 8, and 0 for every index from 8 on. *)
Theorem get_bit_value (buffer : list byte) (idx v : Z) :
  get_bit buffer idx = Some v ->
  0 <= idx < 31 /\
  (v = 0 \/ v = 1) /\
  (idx < 8 -> logic_bit buffer idx = Some v) /\
  (8 <= idx -> v = 0).
Proof.
  intros H. assert (Hidx : 0 <= idx < 31).
  { unfold get_bit in H.
    destruct (Z.ltb_spec idx 0); [discriminate|].
    destruct (Z.leb_spec 31 idx); [discriminate|]. lia. }
  split; [exact Hidx|]. split; [eapply get_bit_binary; eassumption|]. split.
  - intros H8. rewrite <- get_bit_first_byte by lia. exact H.
  - intros H8.
    destruct (nth_error buffer (Z.to_nat (idx / 8))) as [b|] eqn:E.
    + rewrite (get_bit_past_first_byte buffer idx b ltac:(lia) E) in H.
      congruence.
    + unfold get_bit in H.
      replace ((idx <? 0) || (31 <=? idx)) with false in H by lia.
      rewrite Z.quot_div_nonneg, E in H by lia. discriminate.
Qed.

Lemma get_bit_value_witness :
  0 <= 2 < 31 /\
  (1 = 0 \/ 1 = 1) /\
  (2 < 8 -> logic_bit [Byte.x05] 2 = Some 1) /\
  (8 <= 2 -> 1 = 0).
Proof.
  apply (get_bit_value [Byte.x05] 2 1). vm_compute. reflexivity.
Defined.

(** ** DeltaEncoder: what a capture keeps *)

Lemma receive_sample_setup (ctx ctx' : context) (first first' : bool)
    (cur : list byte) (out : list string) :
  receive_sample ctx first cur = Some (ctx', first', out) ->
  first' = false /\ same_session ctx ctx' /\
  samplecount ctx' = wrap 64 (samplecount ctx + 1).
Proof.
  destruct first; intros H.
  - destruct (receive_sample_first _ _ _ _ _ H) as (Hf & Hs & Hc & _). auto.
  - destruct (receive_sample_later _ _ _ _ _ H) as (Hf & Hs & Hc & _). auto.
Qed.

Lemma receive_loop_setup (length_bits : Z) (fuel : nat)
    (logic : sr_datafeed_logic) :
  forall (ctx : context) (first : bool) (i : Z) (out : list string)
         (ctx' : context) (out' : list string),
    receive_loop length_bits fuel logic ctx first i out = Done (ctx', out') ->
    same_session ctx ctx' /\ exists extra, out' = out ++ extra.
Proof.
  induction fuel as [|fuel IH]; intros ctx first i out ctx' out' H;
    cbn [receive_loop] in H; [discriminate|].
  destruct (i <=? wrap length_bits _).
  - destruct (receive_sample ctx first _) as [[[ctx1 f1] l1]|] eqn:E;
      [|discriminate].
    destruct (receive_sample_setup _ _ _ _ _ _ E) as (_ & Hs & _).
    destruct (IH _ _ _ _ _ _ H) as (Hs' & extra & ->).
    split; [eapply same_session_trans; eassumption|].
    exists (l1 ++ extra). now rewrite app_assoc.
  - injection H as <- <-. split; [apply same_session_refl|].
    exists []. now rewrite app_nil_r.
Qed.

(** X10. A session that returns leaves the registry, the period, the rate and
    the sample width as [init] set them, whatever the packets hold; once a
    logic packet was received the header is gone. *)
Theorem session_keeps_setup (length_bits : Z) (fuel : nat)
    (packets : list sr_datafeed_packet) :
  forall (ctx : context) (text : list string) (o' : option context),
    session length_bits fuel (Some ctx) packets = Done (text, o') ->
    exists ctx',
      o' = Some ctx' /\
      probeindices ctx' = probeindices ctx /\
      period ctx' = period ctx /\
      samplerate ctx' = samplerate ctx /\
      unitsize ctx' = unitsize ctx /\
      (existsb is_logic packets = true -> header ctx' = None) /\
      (existsb is_logic packets = false -> header ctx' = header ctx).
Proof.
  induction packets as [|p ps IH]; intros ctx text o' H; cbn [session] in H.
  - injection H as <- <-. exists ctx. cbn. repeat split; auto. discriminate.
  - destruct p as [logic|]; cbn [receive] in H.
    + destruct (receive_loop length_bits fuel logic _ _ 0 _)
        as [[ctx1 out1]| |] eqn:E; try discriminate.
      destruct (receive_loop_setup _ _ _ _ _ _ _ _ _ E)
        as ((Hp & Hh & Hpe & Hr & Hu) & _).
      cbn [set_header probeindices header period samplerate unitsize] in *.
      destruct (session length_bits fuel (Some ctx1) ps)
        as [[outs o'']| |] eqn:E2; try discriminate.
      injection H as <- <-.
      destruct (IH _ _ _ E2) as (ctx' & -> & Hp' & Hpe' & Hr' & Hu' & Hl1 & Hl2).
      exists ctx'. cbn [existsb is_logic orb].
      repeat split; try congruence.
      intros _. destruct (existsb is_logic ps); [auto | rewrite Hl2; auto].
    + destruct (session length_bits fuel (Some ctx) ps)
        as [[outs o'']| |] eqn:E2; try discriminate.
      injection H as <- <-.
      destruct (IH _ _ _ E2) as (ctx' & -> & Hp' & Hpe' & Hr' & Hu' & Hl1 & Hl2).
      exists ctx'. cbn [existsb is_logic orb]. repeat split; assumption.
Qed.

Lemma session_keeps_setup_witness :
  exists text o' ctx',
    session 64 8 (Some (snd (init demo_host sdi_gap))) demo_packets
    = Done (text, o') /\
    o' = Some ctx' /\
    probeindices ctx' = probeindices (snd (init demo_host sdi_gap)) /\
    period ctx' = period (snd (init demo_host sdi_gap)) /\
    samplerate ctx' = samplerate (snd (init demo_host sdi_gap)) /\
    unitsize ctx' = unitsize (snd (init demo_host sdi_gap)) /\
    (existsb is_logic demo_packets = true -> header ctx' = None) /\
    (existsb is_logic demo_packets = false ->
     header ctx' = header (snd (init demo_host sdi_gap))).
Proof.
  assert (H : exists text o',
             session 64 8 (Some (snd (init demo_host sdi_gap))) demo_packets
             = Done (text, o'))
    by (vm_compute; do 2 eexists; reflexivity).
  destruct H as (text & o' & H).
  destruct (session_keeps_setup 64 8 demo_packets _ text o' H) as (ctx' & Hc).
  exists text, o', ctx'. split; [exact H | exact Hc].
Defined.

(** X11. Packets that are not logic data can be taken out of a session: the
    text and the final state are the same without them. *)
Theorem session_skips_other_packets (length_bits : Z) (fuel : nat)
    (packets : list sr_datafeed_packet) :
  forall o : option context,
    session length_bits fuel o packets
    = session length_bits fuel o (filter is_logic packets).
Proof.
  induction packets as [|p ps IH]; intros o; cbn [filter]; [reflexivity|].
  destruct p as [logic|]; cbn [is_logic].
  - cbn [session]. destruct (receive length_bits fuel o (SR_DF_LOGIC logic))
      as [[[rc out] o1]| |]; try reflexivity.
    now rewrite IH.
  - cbn [session]. destruct o as [ctx|]; cbn [receive app]; rewrite <- IH;
      now destruct (session length_bits fuel _ ps) as [[outs o'']| |].
Qed.

(** ** DeltaEncoder: samples counted, sample retained *)

Lemma bytes_eqb_eq (a b : list byte) : bytes_eqb a b = true -> a = b.
Proof.
  unfold bytes_eqb. destruct (list_eq_dec Byte.byte_eq_dec a b);
    [auto | discriminate].
Qed.

Lemma mem_read_inv (buf x : list byte) (n : Z) :
  mem_read buf n = Some x ->
  n <= len buf /\ x = firstn (Z.to_nat n) buf.
Proof.
  unfold mem_read. destruct (Z.leb_spec n (len buf)); [|discriminate].
  intros [= <-]. auto.
Qed.

(** After a turn of the sample loop the retained sample is the sample of
    that turn, whether it was written or skipped. *)
Lemma receive_sample_snapshot (ctx ctx' : context) (first first' : bool)
    (cur : list byte) (out : list string) :
  len (prevsample ctx) = unitsize ctx ->
  receive_sample ctx first cur = Some (ctx', first', out) ->
  prevsample ctx' = firstn (Z.to_nat (unitsize ctx)) cur /\
  len (prevsample ctx') = unitsize ctx.
Proof.
  intros Hlen. unfold receive_sample.
  cbn [samplecount samplerate period set_samplecount prevsample probeindices
       unitsize].
  intros H. bind_inv H.
  assert (Hprev : firstn (Z.to_nat (unitsize ctx)) (prevsample ctx)
                  = prevsample ctx)
    by (apply firstn_all2; unfold len in Hlen; lia).
  assert (Hfl : forall n, n <= len cur -> 0 <= n ->
                          len (firstn (Z.to_nat n) cur) = n).
  { intros n Hn Hn0. unfold len in *. rewrite length_firstn. lia. }
  pose proof (len_nonneg (prevsample ctx)) as Hnn.
  destruct (negb first && b) eqn:Eskip.
  - injection H as <- _ _. cbn [prevsample set_samplecount].
    apply andb_prop in Eskip as [Hf Hb]. subst b.
    destruct first; [discriminate|].
    unfold memcmp_eq in E. bind_inv E. injection E as E.
    apply bytes_eqb_eq in E. subst l0.
    destruct (mem_read_inv _ _ _ E0) as [_ Hx].
    destruct (mem_read_inv _ _ _ E1) as [Hn Hy].
    rewrite Hprev in Hx. split; [congruence | assumption].
  - bind_inv H. injection H as <- _ _. cbn [prevsample set_prevsample].
    unfold memcpy in E2. bind_inv E2. injection E2 as <-.
    destruct (mem_read_inv _ _ _ E4) as [Hn ->].
    rewrite skipn_all2 by (unfold len in Hlen; lia).
    rewrite app_nil_r. split; [reflexivity|]. apply Hfl; lia.
Qed.

Section WholeSamples.

Variable length_bits : Z.
Hypothesis length_bits_wide : 32 <= length_bits.

Variable logic : sr_datafeed_logic.
Hypothesis unitsize_pos : 0 < logic_unitsize logic.
Hypothesis one_sample : logic_unitsize logic <= logic_length logic.
Hypothesis length_small : logic_length logic < 2 ^ 32.

(** The loop with [m] whole samples left: if it returns, it has counted
    them and, when the retained sample has the width of the session,
    retains the last one. *)
Lemma receive_loop_whole (m : nat) :
  forall (fuel : nat) (ctx : context) (first : bool) (i : Z)
         (out : list string) (ctx' : context) (out' : list string),
    Z.of_nat m <= whole_samples logic ->
    i = (whole_samples logic - Z.of_nat m) * logic_unitsize logic ->
    0 <= samplecount ctx < 2 ^ 64 ->
    receive_loop length_bits fuel logic ctx first i out = Done (ctx', out') ->
    samplecount ctx' = wrap 64 (samplecount ctx + Z.of_nat m) /\
    (len (prevsample ctx) = unitsize ctx ->
     len (prevsample ctx') = unitsize ctx' /\
     prevsample ctx'
     = match m with
       | O => prevsample ctx
       | S _ =>
           firstn (Z.to_nat (unitsize ctx))
             (skipn (Z.to_nat ((whole_samples logic - 1) * logic_unitsize logic))
                (logic_data logic))
       end).
Proof.
  assert (Hpow : 2 ^ 32 <= 2 ^ length_bits) by (apply Z.pow_le_mono_r; lia).
  pose proof (whole_samples_bounds logic unitsize_pos) as Hws.
  induction m as [|m IH];
    intros fuel ctx first i out ctx' out' Hm Hi Hcnt H;
    (destruct fuel as [|fuel]; [discriminate|]); cbn [receive_loop] in H;
    rewrite (wrap_small length_bits) in H by lia.
  - change (Z.of_nat 0) with 0 in *.
    assert (Hgt : logic_length logic - logic_unitsize logic < i)
      by (subst i; nia).
    apply Z.leb_gt in Hgt. rewrite Hgt in H. injection H as <- <-.
    rewrite Z.add_0_r, wrap_small by assumption. auto.
  - assert (Hle : i <= logic_length logic - logic_unitsize logic)
      by (subst i; nia).
    assert (Hi0 : 0 <= i) by (subst i; nia).
    apply Z.leb_le in Hle. rewrite Hle in H. apply Z.leb_le in Hle.
    destruct (receive_sample ctx first _) as [[[ctx1 f1] l1]|] eqn:E;
      [|discriminate].
    destruct (receive_sample_setup _ _ _ _ _ _ E) as (_ & Hs & Hc).
    destruct Hs as (_ & _ & _ & _ & Hu).
    rewrite (wrap_small 32) in H by lia.
    assert (Hnext : i + logic_unitsize logic
                    = (whole_samples logic - Z.of_nat m) * logic_unitsize logic)
      by (subst i; rewrite Nat2Z.inj_succ; ring).
    assert (Hcnt1 : 0 <= samplecount ctx1 < 2 ^ 64)
      by (rewrite Hc; apply wrap_range; lia).
    destruct (IH _ _ _ _ _ _ _ ltac:(lia) Hnext Hcnt1 H) as (Hc' & Hsnap').
    split.
    + rewrite Hc', Hc. unfold wrap. rewrite Zplus_mod_idemp_l.
      f_equal. lia.
    + intros Hprev.
      destruct (receive_sample_snapshot _ _ _ _ _ _ Hprev E) as [Hsnap Hlen1].
      destruct (Hsnap' ltac:(congruence)) as [Hlen' Hprev'].
      split; [assumption|].
      rewrite Hprev'. destruct m as [|m'].
      * rewrite Hsnap. do 3 f_equal. subst i.
        change (Z.of_nat 1) with 1. reflexivity.
      * now rewrite Hu.
Qed.

End WholeSamples.

(** X12. A call of [receive] for a logic packet of at least one whole sample
    that returns has counted [floor (length / unitsize)] samples, bytes
    after the last whole sample apart. *)
Theorem receive_counts_whole_samples (length_bits : Z) (fuel : nat)
    (ctx ctx' : context) (logic : sr_datafeed_logic) (rc : retcode)
    (out : option (list string)) :
  32 <= length_bits ->
  0 < logic_unitsize logic <= logic_length logic ->
  logic_length logic < 2 ^ 32 ->
  0 <= samplecount ctx < 2 ^ 64 ->
  receive length_bits fuel (Some ctx) (SR_DF_LOGIC logic)
  = Done (rc, out, Some ctx') ->
  samplecount ctx' = wrap 64 (samplecount ctx + whole_samples logic).
Proof.
  intros Hw [Hus Hone] Hsmall Hcnt H. cbn [receive] in H.
  destruct (receive_loop length_bits fuel logic _ _ 0 _)
    as [[ctx1 out1]| |] eqn:E; try discriminate.
  injection H as _ _ <-.
  assert (Hws : 0 <= whole_samples logic) by (apply Z.div_pos; lia).
  assert (Hm : Z.of_nat (Z.to_nat (whole_samples logic)) <= whole_samples logic)
    by lia.
  assert (Hi : 0 = (whole_samples logic
                    - Z.of_nat (Z.to_nat (whole_samples logic)))
                   * logic_unitsize logic)
    by (rewrite Z2Nat.id by lia; ring).
  destruct (receive_loop_whole length_bits Hw logic Hus Hone Hsmall
              (Z.to_nat (whole_samples logic)) _ (set_header ctx None)
              _ _ _ _ _ Hm Hi Hcnt E)
    as [Hc _].
  cbn [set_header samplecount] in Hc. now rewrite Z2Nat.id in Hc by lia.
Qed.

Lemma receive_counts_whole_samples_witness :
  exists rc out ctx',
    receive 64 8 (Some (snd (init demo_host sdi_gap))) (SR_DF_LOGIC frame_three)
    = Done (rc, out, Some ctx') /\
    samplecount ctx'
    = wrap 64 (samplecount (snd (init demo_host sdi_gap))
               + whole_samples frame_three).
Proof.
  assert (H : exists rc out ctx',
             receive 64 8 (Some (snd (init demo_host sdi_gap)))
               (SR_DF_LOGIC frame_three)
             = Done (rc, out, Some ctx'))
    by (vm_compute; do 3 eexists; reflexivity).
  destruct H as (rc & out & ctx' & H).
  exists rc, out, ctx'. split; [exact H|].
  apply (receive_counts_whole_samples 64 8 (snd (init demo_host sdi_gap)) ctx'
           frame_three rc out);
    first [ exact H | lia | vm_compute; first [ reflexivity | split; first [reflexivity | discriminate] ] ].
Defined.

(** X13. After a call of [receive] for a logic packet of at least one whole
    sample that returns, the retained previous sample is the last whole
    sample of the packet, cut to the sample width of the session; bytes
    after the last whole sample are never looked at. *)
Theorem receive_retains_last_sample (length_bits : Z) (fuel : nat)
    (ctx ctx' : context) (logic : sr_datafeed_logic) (rc : retcode)
    (out : option (list string)) :
  32 <= length_bits ->
  0 < logic_unitsize logic <= logic_length logic ->
  logic_length logic < 2 ^ 32 ->
  0 <= samplecount ctx < 2 ^ 64 ->
  len (prevsample ctx) = unitsize ctx ->
  receive length_bits fuel (Some ctx) (SR_DF_LOGIC logic)
  = Done (rc, out, Some ctx') ->
  prevsample ctx'
  = firstn (Z.to_nat (unitsize ctx))
      (skipn (Z.to_nat ((whole_samples logic - 1) * logic_unitsize logic))
         (logic_data logic)) /\
  len (prevsample ctx') = unitsize ctx'.
Proof.
  intros Hw [Hus Hone] Hsmall Hcnt Hprev H. cbn [receive] in H.
  destruct (receive_loop length_bits fuel logic _ _ 0 _)
    as [[ctx1 out1]| |] eqn:E; try discriminate.
  injection H as _ _ <-.
  pose proof (whole_samples_bounds logic Hus) as Hb.
  assert (Hws : 1 <= whole_samples logic) by nia.
  assert (Hm : Z.of_nat (Z.to_nat (whole_samples logic)) <= whole_samples logic)
    by lia.
  assert (Hi : 0 = (whole_samples logic
                    - Z.of_nat (Z.to_nat (whole_samples logic)))
                   * logic_unitsize logic)
    by (rewrite Z2Nat.id by lia; ring).
  destruct (receive_loop_whole length_bits Hw logic Hus Hone Hsmall
              (Z.to_nat (whole_samples logic)) _ (set_header ctx None)
              _ _ _ _ _ Hm Hi Hcnt E)
    as [_ Hsnap].
  destruct (Hsnap Hprev) as [Hlen Hp].
  destruct (Z.to_nat (whole_samples logic)) eqn:En; [lia|].
  auto.
Qed.

Lemma receive_retains_last_sample_witness :
  exists rc out ctx',
    receive 64 8 (Some (snd (init demo_host sdi_gap))) (SR_DF_LOGIC frame_three)
    = Done (rc, out, Some ctx') /\
    prevsample ctx' = [Byte.x02] /\
    len (prevsample ctx') = unitsize ctx'.
Proof.
  assert (H : exists rc out ctx',
             receive 64 8 (Some (snd (init demo_host sdi_gap)))
               (SR_DF_LOGIC frame_three)
             = Done (rc, out, Some ctx'))
    by (vm_compute; do 3 eexists; reflexivity).
  destruct H as (rc & out & ctx' & H).
  exists rc, out, ctx'. split; [exact H|].
  apply (receive_retains_last_sample 64 8 (snd (init demo_host sdi_gap)) ctx'
           frame_three rc out);
    first [ exact H | lia | vm_compute; first [ reflexivity | split; first [reflexivity | discriminate] ] ].
Defined.

(** ** DeltaEncoder: which probes are written *)




(** X15. The line of a probe none of whose bits is declared below -1 (every
    bit number from 0 on is such):
    ['b'] for a vector, the values of its bits in the stored order, each
    ['0'] or ['1'], a space for a vector, the symbol, a line feed. *)
Theorem value_line_format (cur : list byte) (probe_ctx : probe_context)
    (line : string) :
  Forall (fun bidx => -1 <= bit bidx) (indices probe_ctx) ->
  value_line cur probe_ctx = Some line ->
  exists vs,
    Forall2 (fun bidx v => get_bit cur (sample bidx) = Some v)
      (indices probe_ctx) vs /\
    Forall (fun v => v = 0 \/ v = 1) vs /\
    line = ((if is_vector probe_ctx then "b" else "")
            ++ fold_right (fun v t => (if (v =? 0)%Z then "0" else "1") ++ t)
                 "" vs
            ++ (if is_vector probe_ctx then " " else "")
            ++ chr (symbol probe_ctx) ++ LF)%string.
Proof.
  intros Hb. unfold value_line. intros H. bind_inv H. injection H as <-.
  destruct (render_bits_no_gap _ _ _ Hb E) as (vs & Hvs & ->).
  assert (Hbin : Forall (fun v => v = 0 \/ v = 1) vs).
  { clear - Hvs. induction Hvs; constructor; [|assumption].
    eapply get_bit_binary; eassumption. }
  exists vs. split; [assumption|]. split; [assumption|].
  f_equal.
  assert (Hd : fold_right (fun v t => (decimal v ++ t)%string) "" vs
               = fold_right
                   (fun v t => ((if (v =? 0)%Z then "0" else "1") ++ t)%string)
                   "" vs).
  { clear - Hbin. induction Hbin as [|v vs [-> | ->] _ IH]; cbn [fold_right];
      [reflexivity | |]; now rewrite IH. }
  rewrite Hd. reflexivity.
Qed.

Lemma value_line_format_witness :
  exists vs,
    Forall2 (fun bidx v => get_bit [Byte.x01] (sample bidx) = Some v)
      (indices entry_gap) vs /\
    Forall (fun v => v = 0 \/ v = 1) vs /\
    ("b10 !" ++ LF)%string
    = ((if is_vector entry_gap then "b" else "")
       ++ fold_right (fun v t => (if (v =? 0)%Z then "0" else "1") ++ t) "" vs
       ++ (if is_vector entry_gap then " " else "")
       ++ chr (symbol entry_gap) ++ LF)%string.
Proof.
  apply (value_line_format [Byte.x01] entry_gap ("b10 !" ++ LF)%string).
  - repeat constructor; vm_compute; discriminate.
  - vm_compute. reflexivity.
Defined.

(** ** Timestamps under the selected period *)

Lemma select_period_bound (r : Z) :
  0 < r -> 0 < select_period r <= 1000 * r.
Proof.
  intros Hr. unfold select_period, SR_KHZ, SR_MHZ, SR_GHZ.
  destruct (Z.gtb_spec r (1 * 1000000)); [lia|].
  destruct (Z.gtb_spec r (1 * 1000)); lia.
Qed.

Lemma select_period_ratio (k r : Z) :
  0 < r -> 0 <= k ->
  (0 <= inject_Z k / inject_Z r * inject_Z (select_period r)
   <= inject_Z k * inject_Z 1000)%Q.
Proof.
  intros Hr Hk0.
  destruct (select_period_bound r Hr) as [Hu0 Hu].
  assert (HK : (0 <= inject_Z k)%Q) by (rewrite (Zle_Qle 0 k) in Hk0; exact Hk0).
  assert (HR : (0 < inject_Z r)%Q) by (rewrite (Zlt_Qlt 0 r) in Hr; exact Hr).
  assert (HU : (inject_Z (select_period r) <= inject_Z (1000 * r))%Q)
    by (rewrite <- Zle_Qle; exact Hu).
  rewrite inject_Z_mult in HU.
  assert (Hq : (inject_Z (select_period r) / inject_Z r <= inject_Z 1000)%Q)
    by (apply Qle_shift_div_r; assumption).
  assert (Hq0 : (0 <= inject_Z (select_period r) / inject_Z r)%Q).
  { apply Qle_shift_div_l; [assumption|]. rewrite Qmult_0_l.
    assert (H0 : 0 <= select_period r) by lia.
    rewrite (Zle_Qle 0 (select_period r)) in H0. exact H0. }
  setoid_replace (inject_Z k / inject_Z r * inject_Z (select_period r))%Q
    with (inject_Z k * (inject_Z (select_period r) / inject_Z r))%Q
    by (field; lra).
  split.
  - apply Qmult_le_0_compat; assumption.
  - apply Qmult_le_compat_nonneg; split; try assumption. apply Qle_refl.
Qed.

Lemma timestamp_period_defined (k r : Z) :
  0 < r -> 0 <= k <= 2 ^ 54 ->
  exists t, timestamp k r (select_period r) = Some t.
Proof.
  intros Hr [Hk0 Hk].
  destruct (select_period_bound r Hr) as [Hu0 Hu].
  apply TimestampFacts.timestamp_defined; try lia.
  - apply period_representable.
  - destruct (select_period_ratio k r Hr Hk0) as [_ Hx'].
    assert (HK2 : (inject_Z k <= inject_Z (2 ^ 54))%Q)
      by (rewrite <- Zle_Qle; exact Hk).
    assert (Hx : (inject_Z k / inject_Z r * inject_Z (select_period r)
                  <= inject_Z (2 ^ 54) * inject_Z 1000)%Q).
    { eapply Qle_trans; [exact Hx'|].
      apply Qmult_le_compat_r; [exact HK2 | discriminate]. }
    apply Qle_lt_trans
      with (inject_Z (2 ^ 54) * inject_Z 1000
            * (1 + (5 # 1) * Float32.ulp_half))%Q.
    + apply Qmult_le_compat_r; [exact Hx | discriminate].
    + reflexivity.
Qed.

(** X16. With the period that [init] selects for a rate above 0, the
    conversion of the timestamp to [uint64_t] is defined for every count
    up to 2^54, and the timestamp written is at most 1001 times the
    count. *)
Theorem timestamp_selected_defined (k r : Z) :
  0 < r < 2 ^ 64 -> 0 <= k <= 2 ^ 54 ->
  exists t, timestamp k r (select_period r) = Some t /\ 0 <= t <= 1001 * k.
Proof.
  intros [Hr _] [Hk0 Hk].
  destruct (timestamp_period_defined k r Hr (conj Hk0 Hk)) as [t Ht].
  exists t. split; [exact Ht|].
  destruct (select_period_bound r Hr) as [Hu0 Hu].
  destruct (TimestampFacts.timestamp_error k r (select_period r) t
              Hk0 Hr ltac:(lia) (period_representable r) Ht) as [_ Hhi].
  destruct (select_period_ratio k r Hr Hk0) as [Hx0 Hx].
  split.
  - unfold timestamp in Ht. destruct (r =? 0); [discriminate|].
    destruct (Z.leb_spec 0 (Float32.trunc (float_timestamp k r (select_period r))));
      [|discriminate].
    cbn [andb] in Ht. destruct (_ <? 2 ^ 64); [|discriminate].
    injection Ht as <-. assumption.
  - rewrite Zle_Qle, inject_Z_mult.
    assert (HK : (0 <= inject_Z k)%Q) by (rewrite (Zle_Qle 0 k) in Hk0; exact Hk0).
    eapply Qle_trans; [exact Hhi|].
    apply Qle_trans
      with (inject_Z k * inject_Z 1000 * (1 + (5 # 1) * Float32.ulp_half))%Q.
    + apply Qmult_le_compat_r; [exact Hx | discriminate].
    + setoid_replace (inject_Z k * inject_Z 1000
                      * (1 + (5 # 1) * Float32.ulp_half))%Q
        with ((inject_Z 1000 * (1 + (5 # 1) * Float32.ulp_half))
              * inject_Z k)%Q by ring.
      apply Qmult_le_compat_r; [discriminate | exact HK].
Qed.

Lemma timestamp_selected_defined_witness :
  exists t, timestamp 5 1000 (select_period 1000) = Some t /\ 0 <= t <= 1001 * 5.
Proof.
  apply (timestamp_selected_defined 5 1000); lia.
Defined.

(** ** From [init] to the end of a capture *)

Lemma scalar_registry_length (ps : list sr_probe) :
  forall i, len (scalar_registry i ps) = len ps.
Proof.
  induction ps as [|p ps IH]; intros i; cbn [scalar_registry]; [reflexivity|].
  unfold len in *. cbn [List.length]. specialize (IH (i + 1)). lia.
Qed.

Lemma scalar_registry_index_ok (n : Z) (ps : list sr_probe) :
  forall i,
    0 <= i -> i + len ps <= n -> n <= 31 ->
    forallb (fun probe_ctx => forallb (index_ok ((n + 7) / 8))
                                (indices probe_ctx))
      (map sort_indices (scalar_registry i ps)) = true.
Proof.
  induction ps as [|p ps IH]; intros i Hi Hn H31; [reflexivity|].
  assert (Hl : len (p :: ps) = 1 + len ps)
    by (unfold len; cbn [List.length]; lia).
  pose proof (len_nonneg ps) as Hnn.
  cbn [scalar_registry map forallb]. rewrite IH by lia.
  cbn. unfold index_ok. cbn [sample].
  assert (Hdiv : i / 8 < (n + 7) / 8)
    by (apply Z.div_lt_upper_bound; [lia|];
        pose proof (Z.mul_div_le (n + 7) 8 ltac:(lia));
        pose proof (Z.mod_pos_bound (n + 7) 8 ltac:(lia));
        pose proof (Z.div_mod (n + 7) 8 ltac:(lia)); lia).
  rewrite (proj2 (Z.leb_le 0 i)), (proj2 (Z.ltb_lt i 31)),
    (proj2 (Z.ltb_lt _ _) Hdiv) by lia.
  reflexivity.
Qed.

(** [init] on enabled scalar probes, at most 31 of them, with a rate
    above 0: a context on which [receive] stays within defined
    behaviour. *)
Lemma init_scalars_context (h : host) (sdi : sr_dev_inst) (r : Z) :
  Forall scalar_enabled (probes sdi) ->
  len (probes sdi) <= 31 ->
  conf_samplerate sdi = Some r ->
  0 < r ->
  fst (init h sdi) = SR_OK /\
  context_ok (snd (init h sdi)) = true /\
  samplecount (snd (init h sdi)) = 0 /\
  samplerate (snd (init h sdi)) = r /\
  period (snd (init h sdi)) = select_period r /\
  unitsize (snd (init h sdi)) = (len (probes sdi) + 7) / 8.
Proof.
  intros Hsc Hlen Hconf Hr.
  pose proof (registry_of_scalars (probes sdi) [] 0 Hsc) as Hreg.
  fold (build_registry (probes sdi)) in Hreg.
  cbn [app] in Hreg. change (len []) with 0 in Hreg.
  unfold init. destruct (build_registry (probes sdi)) as [reg n].
  cbn [fst] in Hreg. subst reg.
  rewrite scalar_registry_length.
  pose proof (len_nonneg (probes sdi)) as Hnn.
  destruct (Z.gtb_spec (len (probes sdi)) 94); [lia|].
  rewrite Hconf. cbn [fst snd samplecount samplerate period unitsize].
  repeat split.
  unfold context_ok.
  cbn [prevsample unitsize probeindices samplerate period samplecount].
  assert (Hus : 0 <= (len (probes sdi) + 7) / 8) by (apply Z.div_pos; lia).
  assert (Hp : 0 < select_period r) by apply (select_period_bound r Hr).
  rewrite scalar_registry_index_ok by lia.
  unfold len at 1. rewrite repeat_length, Z2Nat.id by lia.
  rewrite Z.eqb_refl, (proj2 (Z.ltb_lt 0 r)), (proj2 (Z.leb_le 0 _)) by lia.
  reflexivity.
Qed.

(** X17. [init] on enabled scalar probes, at most 31 of them, with a rate
    above 0, and then a capture of packets that each hold at least one
    whole sample of the width [init] computed, up to 2^54 samples in all:
    [init] succeeds, every call of [receive] returns, and the count at the
    end is the number of whole samples of the packets. *)
Theorem init_then_session (length_bits : Z) (fuel : nat) (h : host)
    (sdi : sr_dev_inst) (r : Z) (packets : list sr_datafeed_packet) :
  32 <= length_bits ->
  Forall scalar_enabled (probes sdi) ->
  len (probes sdi) <= 31 ->
  conf_samplerate sdi = Some r ->
  0 < r < 2 ^ 64 ->
  forallb (packet_ok (snd (init h sdi))) packets = true ->
  total_samples packets <= 2 ^ 54 ->
  total_samples packets < Z.of_nat fuel ->
  fst (init h sdi) = SR_OK /\
  exists text ctx',
    session length_bits fuel (Some (snd (init h sdi))) packets
    = Done (text, Some ctx') /\
    samplecount ctx' = total_samples packets.
Proof.
  intros Hw Hsc Hlen Hconf [Hr _] Hps Htot Hfuel.
  destruct (init_scalars_context h sdi r Hsc Hlen Hconf Hr)
    as (Hrc & Hok & Hc & Hrate & Hper & _).
  split; [exact Hrc|].
  pose proof (total_samples_nonneg _ _ Hps) as Hnn.
  destruct (session_progress length_bits Hw fuel packets (snd (init h sdi)))
    as (text & ctx' & Hs & Hcnt); try assumption.
  - rewrite Hc. lia.
  - rewrite Hc, Hrate, Hper, Z.add_0_l.
    destruct (timestamp_period_defined (total_samples packets) r Hr
                (conj Hnn Htot)) as [t Ht].
    congruence.
  - exists text, ctx'. split; [exact Hs|]. rewrite Hcnt, Hc. lia.
Qed.

Lemma init_then_session_witness :
  fst (init demo_host sdi_1mhz) = SR_OK /\
  exists text ctx',
    session 64 8 (Some (snd (init demo_host sdi_1mhz))) demo_packets
    = Done (text, Some ctx') /\
    samplecount ctx' = total_samples demo_packets.
Proof.
  apply (init_then_session 64 8 demo_host sdi_1mhz 1000000 demo_packets).
  - lia.
  - repeat constructor.
  - vm_compute. discriminate.
  - reflexivity.
  - lia.
  - vm_compute. reflexivity.
  - vm_compute. discriminate.
  - vm_compute. reflexivity.
Defined.

(** ** ProbeRegistry: an offset outside the sample *)

Lemma append_index_at (reg : list probe_context) (b : bit_index) :
  forall k pc,
    nth_error reg k = Some pc ->
    exists pc',
      nth_error (append_index reg k b) k = Some pc' /\
      indices pc' = indices pc ++ [b].
Proof.
  induction reg as [|pc0 reg IH]; intros k pc H; [destruct k; discriminate H|].
  destruct k; cbn [nth_error] in H; cbn [append_index nth_error].
  - injection H as ->. eexists. split; reflexivity.
  - now apply IH.
Qed.

(** X18. When the last enabled probe is a further bit of a vector that the
    registry holds already and the number of logical probes is a multiple
    of eight, [init] succeeds and stores for that bit the offset
    [8 * unitsize]: in a sample of [unitsize] bytes, [get_bit] has no byte
    to read for it. *)
Theorem init_offset_past_sample (h : host) (sdi : sr_dev_inst)
    (ps : list sr_probe) (p : sr_probe) (base : string) (idx : Z) (k : nat) :
  probes sdi = ps ++ [p] ->
  enabled p = true ->
  get_array_str (name p) = Some (base, idx) ->
  probe_find (fst (build_registry ps)) base = Some k ->
  len (fst (build_registry ps)) mod 8 = 0 ->
  len (fst (build_registry ps)) <= 94 ->
  fst (init h sdi) = SR_OK /\
  exists probe_ctx,
    nth_error (probeindices (snd (init h sdi))) k = Some probe_ctx /\
    In {| bit := idx; sample := 8 * unitsize (snd (init h sdi)) |}
       (indices probe_ctx) /\
    forall buf : list byte,
      len buf = unitsize (snd (init h sdi)) ->
      get_bit buf (8 * unitsize (snd (init h sdi))) = None.
Proof.
  intros Hps Hen Hname Hfind Hmod Hlen.
  destruct (probe_find_vector _ _ _ Hfind) as (pc & Hk & _).
  unfold init. rewrite Hps. unfold build_registry in *.
  rewrite fold_left_app. cbn [fold_left].
  destruct (fold_left init_probe ps ([], 0)) as [reg n]. cbn [fst] in *.
  unfold init_probe. rewrite Hen, Hname, Hfind. cbn [negb].
  rewrite append_index_length.
  destruct (Z.gtb_spec (len reg) 94); [lia|].
  cbn [fst snd probeindices unitsize].
  pose proof (len_nonneg reg) as Hnn.
  assert (Hus : 8 * ((len reg + 7) / 8) = len reg).
  { pose proof (Z.div_mod (len reg) 8 ltac:(lia)) as Hd.
    rewrite Hmod, Z.add_0_r in Hd.
    replace (len reg + 7) with (7 + len reg / 8 * 8) by lia.
    rewrite Z.div_add by lia. change (7 / 8) with 0. lia. }
  rewrite Hus. split; [reflexivity|].
  destruct (append_index_at reg {| bit := idx; sample := len reg |} k pc Hk)
    as (pc' & Hk' & Hi).
  exists (sort_indices pc'). split; [|split].
  - rewrite nth_error_map, Hk'. reflexivity.
  - cbn [sort_indices indices].
    eapply Permutation_in; [apply g_array_sort_perm|].
    rewrite Hi. apply in_or_app. right. now left.
  - intros buf Hbuf. unfold get_bit.
    destruct ((len reg <? 0) || (31 <=? len reg)); [reflexivity|].
    rewrite Z.quot_div_nonneg by lia.
    assert (Hq : len reg / 8 = len buf).
    { rewrite Hbuf. rewrite <- Hus at 1.
      rewrite Z.mul_comm, Z.div_mul by lia. reflexivity. }
    rewrite Hq.
    unfold len. rewrite Nat2Z.id.
    now rewrite (proj2 (nth_error_None buf (List.length buf))) by lia.
Qed.

Lemma init_offset_past_sample_witness :
  fst (init demo_host sdi_eight) = SR_OK /\
  exists probe_ctx,
    nth_error (probeindices (snd (init demo_host sdi_eight))) 0
    = Some probe_ctx /\
    In {| bit := 1; sample := 8 * unitsize (snd (init demo_host sdi_eight)) |}
       (indices probe_ctx) /\
    forall buf : list byte,
      len buf = unitsize (snd (init demo_host sdi_eight)) ->
      get_bit buf (8 * unitsize (snd (init demo_host sdi_eight))) = None.
Proof.
  apply (init_offset_past_sample demo_host sdi_eight eight_probes
           (probe_on "v<1>") "v" 1 0);
    first [ lia | vm_compute; first [reflexivity | discriminate] ].
Defined.

(** ** [init]: the sample width *)

(** X19. After a successful [init] the sample width is the least number of
    bytes with a bit for each logical probe, at most 12; the retained
    sample is that many zero bytes, no sample is counted and the header
    is there. *)
Theorem init_sample_width (h : host) (sdi : sr_dev_inst) (ctx : context) :
  init h sdi = (SR_OK, ctx) ->
  8 * (unitsize ctx - 1) < len (probeindices ctx) <= 8 * unitsize ctx /\
  0 <= unitsize ctx <= 12 /\
  prevsample ctx = repeat Byte.x00 (Z.to_nat (unitsize ctx)) /\
  len (prevsample ctx) = unitsize ctx /\
  samplecount ctx = 0 /\
  header ctx <> None.
Proof.
  unfold init. destruct (build_registry (probes sdi)) as [reg n].
  destruct (Z.gtb_spec (len reg) 94); [discriminate|].
  intros [= <-].
  cbn [unitsize probeindices prevsample samplecount header].
  pose proof (len_nonneg reg) as Hnn.
  assert (Hl : len (map sort_indices reg) = len reg)
    by (unfold len; now rewrite length_map).
  rewrite Hl.
  pose proof (Z.div_mod (len reg + 7) 8 ltac:(lia)) as Hd.
  pose proof (Z.mod_pos_bound (len reg + 7) 8 ltac:(lia)) as Hm.
  assert (Hu : 0 <= (len reg + 7) / 8) by (apply Z.div_pos; lia).
  repeat split; try lia.
  - unfold len at 1. rewrite repeat_length. now apply Z2Nat.id.
  - discriminate.
Qed.

Lemma init_sample_width_witness :
  8 * (unitsize (snd (init demo_host sdi_nine)) - 1)
  < len (probeindices (snd (init demo_host sdi_nine)))
  <= 8 * unitsize (snd (init demo_host sdi_nine)) /\
  0 <= unitsize (snd (init demo_host sdi_nine)) <= 12 /\
  prevsample (snd (init demo_host sdi_nine))
  = repeat Byte.x00 (Z.to_nat (unitsize (snd (init demo_host sdi_nine)))) /\
  len (prevsample (snd (init demo_host sdi_nine)))
  = unitsize (snd (init demo_host sdi_nine)) /\
  samplecount (snd (init demo_host sdi_nine)) = 0 /\
  header (snd (init demo_host sdi_nine)) <> None.
Proof.
  apply (init_sample_width demo_host sdi_nine). vm_compute. reflexivity.
Defined.

(** ** [receive] without a context *)

(** X20. Without a context every call of [receive] returns [SR_ERR_ARG] with
    no output, whatever the packet, so that a whole session writes
    nothing and never enters the sample loop. *)
Theorem session_without_context (length_bits : Z) (fuel : nat)
    (packets : list sr_datafeed_packet) :
  session length_bits fuel None packets = Done ([], None) /\
  Forall (fun packet =>
            receive length_bits fuel None packet
            = Done (SR_ERR_ARG, None, None)) packets.
Proof.
  induction packets as [|p ps [IHs IHr]].
  - split; [reflexivity | constructor].
  - split.
    + cbn [session receive]. now rewrite IHs.
    + constructor; [reflexivity | assumption].
Qed.
